(** * ISS tracker: orbital trail projection and polling loop

    A shallow embedding of the algorithmic core of the 3d-globe repository:

    - [src/components/Globe.tsx]: [updateISSPosition] (geodetic to Cartesian
      projection) and [updateOrbitLine] (bounded trail buffer and the
      extrapolated future arc);
    - [src/services/issService.ts]: [getPosition], [cancelRequest] and
      [startTracking] (the polling loop and its cancellation handle).

    JavaScript numbers are kept behind an interface ([JSNumber], [JSMath]) so
    that the same definitions run on IEEE-754 binary64 values (Rocq's
    primitive floats, where NaN and the infinities exist) and on exact real
    arithmetic (where the geometric identities are stated). *)

From Stdlib Require Import List Bool Arith ZArith Lia String DecimalString.
From Stdlib Require Import Reals Lra RNsatz Floats.
Import ListNotations.

Set Implicit Arguments.

(** ** JavaScript numbers *)

(** The arithmetic the source relies on.  [truthy] is ToBoolean on a number
    (used by [a || b]); [isNaN] is the global [isNaN]. *)
Class JSNumber (num : Type) : Type := {
  ofZ : Z -> num;
  add : num -> num -> num;
  sub : num -> num -> num;
  mul : num -> num -> num;
  div : num -> num -> num;
  neg : num -> num;
  Math_sqrt : num -> num;
  isNaN : num -> bool;
  truthy : num -> bool
}.

(** The transcendental part of [Math]; its results are implementation
    approximations in ECMAScript, so on floats they stay parameters. *)
Class JSMath (num : Type) : Type := {
  Math_sin : num -> num;
  Math_cos : num -> num;
  Math_PI : num
}.

Declare Scope js_scope.
Delimit Scope js_scope with js.
Infix "+" := add : js_scope.
Infix "-" := sub : js_scope.
Infix "*" := mul : js_scope.
Infix "/" := div : js_scope.
Notation "- a" := (neg a) : js_scope.

(** A decimal literal [m / 10^k], e.g. [5.2] is [decimal 52 1]. Both parts are
    exact in binary64 for the literals of this program, so the correctly
    rounded quotient is the literal's value. *)
Definition decimal {num} `{JSNumber num} (m : Z) (k : nat) : num :=
  (ofZ m / ofZ (10 ^ Z.of_nat k))%js.

(** [a || b] on numbers. *)
Definition orElse {num} `{JSNumber num} (a b : num) : num :=
  if truthy a then a else b.

(** *** Exact real arithmetic *)

#[export] Instance RNumber : JSNumber R := {
  ofZ := IZR;
  add := Rplus;
  sub := Rminus;
  mul := Rmult;
  div := Rdiv;
  neg := Ropp;
  Math_sqrt := R_sqrt.sqrt;
  isNaN := fun _ => false;
  truthy := fun a => if Req_dec_T a 0 then false else true
}.

#[export] Instance RMath : JSMath R := {
  Math_sin := Rtrigo_def.sin;
  Math_cos := Rtrigo_def.cos;
  Math_PI := PI
}.

(** *** IEEE-754 binary64 *)

Definition float_ofZ (n : Z) : float :=
  if (n <? 0)%Z
  then PrimFloat.opp (PrimFloat.of_uint63 (Uint63.of_Z (- n)))
  else PrimFloat.of_uint63 (Uint63.of_Z n).

#[export] Instance FloatNumber : JSNumber float := {
  ofZ := float_ofZ;
  add := PrimFloat.add;
  sub := PrimFloat.sub;
  mul := PrimFloat.mul;
  div := PrimFloat.div;
  neg := PrimFloat.opp;
  Math_sqrt := PrimFloat.sqrt;
  isNaN := PrimFloat.is_nan;
  truthy := fun a => negb (PrimFloat.is_nan a || PrimFloat.is_zero a)
}.

(** [Math.PI] is the binary64 value nearest to pi. *)
Definition float_PI : float := 0x1.921fb54442d18p+1%float.

Definition FloatMath (sin cos : float -> float) : JSMath float := {|
  Math_sin := sin;
  Math_cos := cos;
  Math_PI := float_PI
|}.

(** ** three.js: the [Vector3] and [Matrix4] methods the source calls *)

Module THREE.

Section Vectors.
Context {num : Type} `{JSNumber num} `{JSMath num}.
Local Open Scope js_scope.

Record Vector3 : Type := mkVector3 { x : num; y : num; z : num }.

(** [v.clone()] copies the three coordinates into a new object. *)
Definition clone (v : Vector3) : Vector3 := mkVector3 (x v) (y v) (z v).

(** [new Vector3().subVectors(a, b)] *)
Definition subVectors (a b : Vector3) : Vector3 :=
  mkVector3 (x a - x b) (y a - y b) (z a - z b).

(** [new Vector3().crossVectors(a, b)] *)
Definition crossVectors (a b : Vector3) : Vector3 :=
  mkVector3 (y a * z b - z a * y b)
            (z a * x b - x a * z b)
            (x a * y b - y a * x b).

(** [v.length()] *)
Definition length (v : Vector3) : num :=
  Math_sqrt (x v * x v + y v * y v + z v * z v).

(** [v.multiplyScalar(s)] *)
Definition multiplyScalar (v : Vector3) (s : num) : Vector3 :=
  mkVector3 (x v * s) (y v * s) (z v * s).

(** [v.divideScalar(s)] is [v.multiplyScalar(1 / s)]. *)
Definition divideScalar (v : Vector3) (s : num) : Vector3 :=
  multiplyScalar v (ofZ 1 / s).

(** [v.normalize()] is [v.divideScalar(v.length() || 1)]. *)
Definition normalize (v : Vector3) : Vector3 :=
  divideScalar v (orElse (length v) (ofZ 1)).

(** A 4x4 matrix by its rows [n11 .. n44], the argument order of
    [Matrix4.set]. *)
Record Matrix4 : Type := mkMatrix4 {
  n11 : num; n12 : num; n13 : num; n14 : num;
  n21 : num; n22 : num; n23 : num; n24 : num;
  n31 : num; n32 : num; n33 : num; n34 : num;
  n41 : num; n42 : num; n43 : num; n44 : num
}.

(** [new Matrix4().makeRotationAxis(axis, angle)] *)
Definition makeRotationAxis (axis : Vector3) (angle : num) : Matrix4 :=
  let c := Math_cos angle in
  let s := Math_sin angle in
  let t := ofZ 1 - c in
  let ax := x axis in
  let ay := y axis in
  let az := z axis in
  let tx := t * ax in
  let ty := t * ay in
  mkMatrix4
    (tx * ax + c)      (tx * ay - s * az) (tx * az + s * ay) (ofZ 0)
    (tx * ay + s * az) (ty * ay + c)      (ty * az - s * ax) (ofZ 0)
    (tx * az - s * ay) (ty * az + s * ax) (t * az * az + c)  (ofZ 0)
    (ofZ 0)            (ofZ 0)            (ofZ 0)            (ofZ 1).

(** [v.applyMatrix4(m)], with the perspective divide. *)
Definition applyMatrix4 (v : Vector3) (m : Matrix4) : Vector3 :=
  let w := ofZ 1 / (n41 m * x v + n42 m * y v + n43 m * z v + n44 m) in
  mkVector3
    ((n11 m * x v + n12 m * y v + n13 m * z v + n14 m) * w)
    ((n21 m * x v + n22 m * y v + n23 m * z v + n24 m) * w)
    ((n31 m * x v + n32 m * y v + n33 m * z v + n34 m) * w).

End Vectors.

Arguments Vector3 : clear implicits.
Arguments Matrix4 : clear implicits.

End THREE.

Import THREE (Vector3, mkVector3).

(** ** Shared types ([src/types/iss.ts]) *)

Module Types.

Record ISSPosition (num : Type) : Type := mkISSPosition {
  latitude : num;
  longitude : num;
  altitude : num;
  velocity : num
}.

(** The [iss_position] object of the feed: two numeric strings. *)
Module Raw.
Record iss_position : Type := mk { latitude : string; longitude : string }.
End Raw.

(** [ISSAPIResponse]; an absent [iss_position] is [None]. *)
Record ISSAPIResponse : Type := mkISSAPIResponse {
  iss_position : option Raw.iss_position;
  message : string;
  timestamp : Z
}.

End Types.

Import Types (ISSPosition, mkISSPosition, ISSAPIResponse, mkISSAPIResponse).

(** The newest [n] elements of a list, oldest first. *)
Definition lastn {A : Type} (n : nat) (l : list A) : list A :=
  skipn (List.length l - n) l.

(** ** The Globe component ([src/components/Globe.tsx]) *)

Module Globe.

Definition MAX_TRAIL_LENGTH : nat := 100.
Definition FUTURE_POINTS : nat := 200.

Section Component.
Context {num : Type} `{JSNumber num} `{JSMath num}.
Local Open Scope js_scope.

(** *** Objects

    [THREE.Vector3] objects are mutable and shared by reference, so the
    points that outlive a call live in a store; a reference is an index
    into it.  Temporaries that never escape a call are plain values. *)

Definition Ref : Type := nat.
Definition Heap : Type := list (Vector3 num).

(** [new THREE.Vector3(..)] / [clone()]: a fresh object. *)
Definition alloc (h : Heap) (v : Vector3 num) : Heap * Ref :=
  (h ++ [v], List.length h).

(** Assigning the coordinates of the object at [r]. *)
Fixpoint store (h : Heap) (r : Ref) (v : Vector3 num) : Heap :=
  match h, r with
  | [], _ => []
  | _ :: t, O => v :: t
  | a :: t, S r' => a :: store t r' v
  end.

(** *** Component state

    [sceneManager] and [issMarker] may be undefined; of the marker only its
    position matters here.  [pastLine] and [futureLine] are the point
    arrays last handed to the geometries of the two lines of the orbit
    group. *)
Record State : Type := mkState {
  heap : Heap;
  sceneManager : bool;
  issMarker : option (Vector3 num);
  orbitPoints : list Ref;
  pastLine : list (Vector3 num);
  futureLine : list (Vector3 num)
}.

(** [createOrbitLine]: both geometries start from the single point
    [(0, 0, 0)]; [orbitPoints] starts empty. *)
Definition origin : Vector3 num := mkVector3 (ofZ 0) (ofZ 0) (ofZ 0).

Definition createOrbitLine (h : Heap) (ready : bool)
    (marker : option (Vector3 num)) : State :=
  mkState h ready marker [] [origin] [origin].

(** The buffered points, read through the store. *)
Definition trailPoints (st : State) : list (option (Vector3 num)) :=
  map (nth_error (heap st)) (orbitPoints st).

(** *** [updateOrbitLine] *)

(** [isNaN(position.x) || isNaN(position.y) || isNaN(position.z)] *)
Definition invalidPosition (p : Vector3 num) : bool :=
  isNaN (THREE.x p) || isNaN (THREE.y p) || isNaN (THREE.z p).

(** [p && !isNaN(p.x) && !isNaN(p.y) && !isNaN(p.z)] *)
Definition validPoint (h : Heap) (r : Ref) : bool :=
  match nth_error h r with
  | Some p =>
      negb (isNaN (THREE.x p)) && negb (isNaN (THREE.y p))
      && negb (isNaN (THREE.z p))
  | None => false
  end.

(** The body of the [for] loop at index [i]. *)
Definition futurePoint (lastPoint orbitalPlaneNormal : Vector3 num)
    (radius : num) (i : nat) : Vector3 num :=
  let angle :=
    (ofZ (Z.of_nat i) / ofZ (Z.of_nat FUTURE_POINTS)) * Math_PI / ofZ 2 in
  let rotationMatrix := THREE.makeRotationAxis orbitalPlaneNormal angle in
  let rotated := THREE.applyMatrix4 (THREE.clone lastPoint) rotationMatrix in
  THREE.multiplyScalar (THREE.normalize rotated) radius.

(** The future arc from the values of the valid points. *)
Definition futurePoints (validPoints : list (Vector3 num))
    : list (Vector3 num) :=
  let n := List.length validPoints in
  if 2 <=? n then
    match nth_error validPoints (n - 1), nth_error validPoints (n - 2) with
    | Some lastPoint, Some secondLastPoint =>
        let velocity := THREE.subVectors lastPoint secondLastPoint in
        let orbitalPlaneNormal :=
          THREE.normalize (THREE.crossVectors lastPoint velocity) in
        let radius := THREE.length lastPoint in
        map (futurePoint lastPoint orbitalPlaneNormal radius)
            (seq 1 FUTURE_POINTS)
    | _, _ => []
    end
  else [].

(** The values of the references that pass the filter. *)
Definition validValues (h : Heap) (refs : list Ref) : list (Vector3 num) :=
  flat_map (fun r => match nth_error h r with
                     | Some p => [p]
                     | None => []
                     end)
           (filter (validPoint h) refs).

(** [orbitPoints.push(newPoint)], then one [orbitPoints.shift()] when the
    length exceeds [MAX_TRAIL_LENGTH]. *)
Definition pushPoint (refs : list Ref) (newPoint : Ref) : list Ref :=
  let pushed := refs ++ [newPoint] in
  if MAX_TRAIL_LENGTH <? List.length pushed then tl pushed else pushed.

(** [updateOrbitLine(orbitGroup, position)].  [position] always denotes an
    object in the source; the first branch only makes the function total.
    [orbitPoints] is an array throughout, so the [Array.isArray] guard never
    fires and is left out.  The orbit group is the one built by
    [createOrbitLine], whose two children and their geometries exist. *)
Definition updateOrbitLine (st : State) (position : Ref) : State :=
  match nth_error (heap st) position with
  | None => st
  | Some p =>
      if invalidPosition p then st
      else
        let (h1, newPoint) := alloc (heap st) (THREE.clone p) in
        let points := pushPoint (orbitPoints st) newPoint in
        let validPoints := filter (validPoint h1) points in
        if List.length validPoints =? 0
        then mkState h1 (sceneManager st) (issMarker st) points
                     (pastLine st) (futureLine st)
        else
          let values := validValues h1 points in
          mkState h1 (sceneManager st) (issMarker st) points
                  values (futurePoints values)
  end.

(** *** [updateISSPosition] *)

Definition radius : num := decimal 52 1.

(** The point [newPosition] built from a position. *)
Definition newPosition (position : ISSPosition num) : Vector3 num :=
  let phi := (ofZ 90 - Types.latitude position) * (Math_PI / ofZ 180) in
  let theta := (Types.longitude position + ofZ 180) * (Math_PI / ofZ 180) in
  mkVector3 (((- radius) * Math_sin phi) * Math_cos theta)
            (radius * Math_cos phi)
            ((radius * Math_sin phi) * Math_sin theta).

(** [updateISSPosition(position, orbitLine)].  The object [newPosition]
    enters the store when it is handed on; on the two early returns it is
    unreachable and the state is the one received.  The marker's rotation
    is rendering and is left out. *)
Definition updateISSPosition (st : State) (position : ISSPosition num)
    : State :=
  match sceneManager st, issMarker st with
  | true, Some _ =>
      let p := newPosition position in
      if invalidPosition p then st
      else
        let (h1, r) := alloc (heap st) p in
        updateOrbitLine
          (mkState h1 (sceneManager st) (Some p) (orbitPoints st)
                   (pastLine st) (futureLine st))
          r
  | _, _ => st
  end.

(** A caller handing a freshly built point to [updateOrbitLine], as
    [updateISSPosition] does with [newPosition]. *)
Definition feed (st : State) (v : Vector3 num) : State :=
  let (h1, r) := alloc (heap st) v in
  updateOrbitLine
    (mkState h1 (sceneManager st) (issMarker st) (orbitPoints st)
             (pastLine st) (futureLine st))
    r.

Definition feedAll (st : State) (vs : list (Vector3 num)) : State :=
  fold_left feed vs st.

(** *** Vocabulary of the statements *)

(** A point the guard of [updateOrbitLine] lets through. *)
Definition accepted (v : Vector3 num) : bool := negb (invalidPosition v).

(** References of the buffer denote allocated objects. *)
Definition allocated (st : State) : Prop :=
  Forall (fun r => r < List.length (heap st)) (orbitPoints st).

(** What a run keeps: the buffer is the window of the newest
    [MAX_TRAIL_LENGTH] clones, each still holding the value it was made
    from. *)
Definition tracks (st : State) (vs : list (Vector3 num)) : Prop :=
  exists refs : list Ref,
    orbitPoints st = lastn MAX_TRAIL_LENGTH refs
    /\ Forall (fun r => r < List.length (heap st)) refs
    /\ map (nth_error (heap st)) refs = map Some (filter accepted vs).

(** The caller assigns new coordinates to the object at [r]. *)
Definition mutate (st : State) (r : Ref) (v : Vector3 num) : State :=
  mkState (store (heap st) r v) (sceneManager st) (issMarker st)
          (orbitPoints st) (pastLine st) (futureLine st).

End Component.

Arguments State : clear implicits.

End Globe.

(** ** The position service ([src/services/issService.ts]) *)

Module ISSService.

Local Open Scope string_scope.
Local Open Scope list_scope.

(** A JavaScript [Error]: its [name] and [message]. *)
Record Error : Type := mkError { name : string; errorMessage : string }.

(** A thrown value: an [Error] instance or anything else. *)
Inductive Thrown : Type :=
| IsError (e : Error)
| NotError.

(** What the network answers to one [getPosition] call: [fetch] rejects, or
    it resolves to a response whose [json()] then rejects or yields the
    payload.  [response.json()] is only reached when [response.ok]. *)
Inductive FetchOutcome : Type :=
| Rejected (e : Thrown)
| Responded (ok : bool) (status : nat) (body : Thrown + ISSAPIResponse).

Definition showStatus (status : nat) : string :=
  NilEmpty.string_of_uint (Nat.to_uint status).

Section Service.
Context {num : Type} `{JSNumber num}.
(** The global [parseFloat]. *)
Variable parseFloat : string -> num.

(** The [catch] block of [getPosition]: every failure leaves as an
    [Error] with a normalised message. *)
Definition rethrow (error : Thrown) : Error :=
  match error with
  | IsError e =>
      if String.eqb (name e) "AbortError"
      then mkError "Error" "Request was cancelled"
      else mkError "Error"
             (String.append "Failed to fetch ISS position: "
                            (errorMessage e))
  | NotError =>
      mkError "Error"
        "An unknown error occurred while fetching ISS position"
  end.

(** [getPosition], as a function of the network's answer: [inl] is the
    thrown [Error], [inr] the returned position. *)
Definition getPosition (answer : FetchOutcome) : Error + ISSPosition num :=
  match answer with
  | Rejected e => inl (rethrow e)
  | Responded ok status body =>
      if negb ok
      then inl (rethrow (IsError
                 (mkError "Error"
                    (String.append "HTTP error! status: "
                                   (showStatus status)))))
      else
        match body with
        | inl e => inl (rethrow e)
        | inr data =>
            match Types.iss_position data with
            | None =>
                inl (rethrow (IsError
                      (mkError "Error"
                         "Invalid response format from ISS API")))
            | Some pos =>
                inr (mkISSPosition
                       (parseFloat (Types.Raw.latitude pos))
                       (parseFloat (Types.Raw.longitude pos))
                       (ofZ 408)
                       (decimal 766 2))
            end
        end
  end.

(** *** The tracking loop

    [track] suspends at the awaits of [getPosition] (one suspension here:
    nothing observable happens between [fetch] and [response.json()])
    and at the timer.  The environment resumes it with an event; the
    caller may invoke the handle returned by [startTracking] at any
    time.  The callbacks return normally here, as those of the Globe
    component do; [Callbacks.step] below adds the callbacks that throw. *)
Inductive Phase : Type :=
| AwaitingPosition   (* inside [await this.getPosition()] *)
| Sleeping           (* inside [await new Promise(setTimeout)] *)
| Finished.          (* the [while] loop has exited *)

Record Tracker : Type := mkTracker {
  isTracking : bool;
  controller : option nat;  (* the service's [AbortController], by number *)
  created : nat;            (* controllers created so far *)
  phase : Phase
}.

Inductive Event : Type :=
| Settled (answer : FetchOutcome)  (* the pending request completes *)
| TimerFired                       (* the [setTimeout] fires *)
| Cancel.                          (* the returned handle is invoked *)

Inductive Action : Type :=
| Request (c : nat)     (* [fetch(ISS_API_URL, {signal})] *)
| Abort (c : nat)       (* [controller.abort()] *)
| OnUpdate (position : ISSPosition num)
| OnError (error : Error).

(** [this.controller?.abort()] *)
Definition abortController (t : Tracker) : list Action :=
  match controller t with
  | Some c => [Abort c]
  | None => []
  end.

(** The start of [getPosition], up to its first await. *)
Definition beginGetPosition (t : Tracker) : Tracker * list Action :=
  let c := created t in
  (mkTracker (isTracking t) (Some c) (S c) AwaitingPosition,
   abortController t ++ [Request c]).

(** [cancelRequest] *)
Definition cancelRequest (t : Tracker) : Tracker * list Action :=
  (mkTracker (isTracking t) None (created t) (phase t), abortController t).

(** The loop test [while (isTracking)]. *)
Definition loopTest (t : Tracker) : Tracker * list Action :=
  if isTracking t then beginGetPosition t
  else (mkTracker (isTracking t) (controller t) (created t) Finished, []).

(** [startTracking]: sets the flag, runs [track()] to its first await and
    returns the handle.  [service] is the singleton's state before. *)
Definition startTracking (service : option nat) (count : nat)
    : Tracker * list Action :=
  loopTest (mkTracker true service count Sleeping).

Definition step (t : Tracker) (e : Event) : Tracker * list Action :=
  match e, phase t with
  | Settled answer, AwaitingPosition =>
      let asleep :=
        mkTracker (isTracking t) (controller t) (created t) Sleeping in
      match getPosition answer with
      | inr position => (asleep, [OnUpdate position])
      | inl error => (asleep, [OnError error])
      end
  | TimerFired, Sleeping => loopTest t
  | Cancel, _ =>
      cancelRequest
        (mkTracker false (controller t) (created t) (phase t))
  | _, _ => (t, [])
  end.

Fixpoint run (t : Tracker) (es : list Event) : Tracker * list Action :=
  match es with
  | [] => (t, [])
  | e :: es' =>
      let (t1, a1) := step t e in
      let (t2, a2) := run t1 es' in
      (t2, a1 ++ a2)
  end.

(** *** Vocabulary of the statements *)

Definition isRequest (a : Action) : bool :=
  match a with Request _ => true | _ => false end.

Definition isOnError (a : Action) : bool :=
  match a with OnError _ => true | _ => false end.

(** A call of [onUpdate] or [onError]. *)
Definition isCallback (a : Action) : bool :=
  match a with OnUpdate _ | OnError _ => true | _ => false end.

(** Callbacks still owed by a stopped loop: the one of the request in
    flight, if any. *)
Definition pendingCallbacks (t : Tracker) : nat :=
  match phase t with
  | AwaitingPosition => 1
  | _ => 0
  end.

End Service.

End ISSService.

(** ** The specification's own words

    Definitions written from the specification, to be compared with the
    code above. *)

Module Spec.

Section Projection.
Context {num : Type} `{JSNumber num} `{JSMath num}.
Local Open Scope js_scope.

(** "a sphere of fixed radius (5.2 units in scene space)" *)
Definition radius : num := decimal 52 1.

(** "phi = (90 - latitude) * (PI / 180); theta = (longitude + 180) * (PI /
    180); x = -radius * sin(phi) * cos(theta); y = radius * cos(phi);
    z = radius * sin(phi) * sin(theta)" *)
Definition project (latitude longitude : num) : Vector3 num :=
  let phi := (ofZ 90 - latitude) * (Math_PI / ofZ 180) in
  let theta := (longitude + ofZ 180) * (Math_PI / ofZ 180) in
  mkVector3 (- radius * Math_sin phi * Math_cos theta)
            (radius * Math_cos phi)
            (radius * Math_sin phi * Math_sin theta).

End Projection.

Section Promises.
Context {num : Type} `{JSNumber num} `{JSMath num}.
Import Globe ISSService.

(** "With two or more points the future arc has exactly N points, each at
    the same distance from the origin as the last past point." *)
Definition constant_radius (st : Globe.State num) : Prop :=
  forall lastPoint : Vector3 num,
    2 <= List.length (filter (validPoint (heap st)) (orbitPoints st)) ->
    nth_error (pastLine st) (List.length (pastLine st) - 1)
      = Some lastPoint ->
    List.length (futureLine st) = FUTURE_POINTS
    /\ Forall (fun q => THREE.length q = THREE.length lastPoint)
              (futureLine st).


End Promises.

End Spec.

(** ** Sample data *)

(** The squared Euclidean norm, in exact arithmetic. *)
Definition norm2 (v : Vector3 R) : R :=
  (THREE.x v * THREE.x v + THREE.y v * THREE.y v + THREE.z v * THREE.z v)%R.

(** Any function on the finite numbers, completed as ECMAScript completes
    [Math.sin] and [Math.cos]: NaN on NaN and on the infinities. *)
Definition nanOutsideFinite (f : float -> float) (a : float) : float :=
  if PrimFloat.is_finite a then f a else nan.

(** [parseFloat] known on the strings of a table; NaN elsewhere, as on any
    string without a numeric prefix. *)
Fixpoint tableParse (table : list (string * float)) (s : string) : float :=
  match table with
  | [] => nan
  | (key, value) :: rest =>
      if String.eqb key s then value else tableParse rest s
  end.

(** Two points a quarter turn apart on the unit sphere, in exact
    arithmetic. *)
Definition eastR : Vector3 R := mkVector3 1%R 0%R 0%R.
Definition northR : Vector3 R := mkVector3 0%R 1%R 0%R.

(** A feed answer and the few strings [parseFloat] is needed on. *)
Definition sampleTable : list (string * float) :=
  [("51.5"%string, 51.5%float); ("-0.125"%string, (-0.125)%float)].

Definition sampleAnswer (lat lon : string) : ISSService.FetchOutcome :=
  ISSService.Responded true 200
    (inr (mkISSAPIResponse (Some (Types.Raw.mk lat lon))
            "success"%string 1700000000%Z)).

(** ** Undisturbed polling

    Vocabulary for runs of the loop in which every request is answered and
    every timer fires. *)

Module Polling.

Section Rounds.
Context {num : Type} `{JSNumber num}.
Variable parseFloat : string -> num.
Import ISSService.

(** The callback one answer leads to: [onUpdate] with the position, or
    [onError] with the normalised error. *)
Definition callbackOf (answer : FetchOutcome) : Action (num := num) :=
  match getPosition parseFloat answer with
  | inr position => OnUpdate position
  | inl error => OnError error
  end.

(** The events of polling through [answers]: each answer arrives, then the
    timer fires. *)
Definition polling (answers : list FetchOutcome) : list Event :=
  flat_map (fun answer => [Settled answer; TimerFired]) answers.

(** What the loop does on them when the pending request uses controller
    [c]: per answer the callback, then the next [getPosition], which aborts
    the controller of the answered request and issues a request under a
    new one. *)
Fixpoint rounds (c : nat) (answers : list FetchOutcome)
    : list (Action (num := num)) :=
  match answers with
  | [] => []
  | answer :: rest =>
      callbackOf answer :: Abort c :: Request (S c) :: rounds (S c) rest
  end.

(** The positions among the answers, in order. *)
Definition positionsOf (answers : list FetchOutcome)
    : list (ISSPosition num) :=
  flat_map (fun answer => match getPosition parseFloat answer with
                          | inr position => [position]
                          | inl _ => []
                          end)
           answers.

(** The errors among the answers, in order. *)
Definition errorsOf (answers : list FetchOutcome) : list Error :=
  flat_map (fun answer => match getPosition parseFloat answer with
                          | inr _ => []
                          | inl error => [error]
                          end)
           answers.

End Rounds.

End Polling.

(** ** More of the Globe component: country borders
    ([validateGeometry], [createCountryBorders], [highlightCountry]) *)

Module Countries.

(** A GeoJSON feature as the component reads it: [properties.name] and the
    rings of [geometry.coordinates], each ring a list of coordinates, each
    coordinate the array of its numbers (longitude first). *)
Record Feature (num : Type) : Type := mkFeature {
  name : string;
  coordinates : list (list (list num))
}.

(** The material of a line: colour and opacity. *)
Record LineStyle (num : Type) : Type := mkLineStyle {
  color : Z;
  opacity : num
}.

(** A [THREE.Line] of the border group: the points its geometry was set from
    and its material. *)
Record Line (num : Type) : Type := mkLine {
  linePoints : list (Vector3 num);
  style : LineStyle num
}.

(** Where the highlight lives: [countryLines] (undefined before the borders
    are built and after cleanup) and the [currentCountry] signal. *)
Record Highlight (num : Type) : Type := mkHighlight {
  countryLines : option (list (Line num));
  currentCountry : string
}.

Section Borders.
Context {num : Type} `{JSNumber num} `{JSMath num}.
Local Open Scope js_scope.

(** The array of a geometry's [position] attribute, when it has one. *)
Definition BufferGeometry : Type := option (list num).

(** [new THREE.BufferGeometry().setFromPoints(points)], from three.js. *)
Variable setFromPoints : list (Vector3 num) -> BufferGeometry.

(** [d3.geoContains(feature, [lon, lat])], with the [catch] that turns a
    throw into [false]. *)
Variable geoContains : Feature num -> num -> num -> bool.

(** The [for] loop of [validateGeometry]: [false] at the first NaN. *)
Fixpoint scanArray (array : list num) : bool :=
  match array with
  | [] => true
  | a :: rest => if isNaN a then false else scanArray rest
  end.

Definition validateGeometry (geometry : BufferGeometry) : bool :=
  match geometry with
  | None => false
  | Some array => scanArray array
  end.

(** White at opacity 0.2, and the highlight blue at opacity 0.8. *)
Definition plainStyle : LineStyle num := mkLineStyle 0xffffff (decimal 2 1).
Definition litStyle : LineStyle num := mkLineStyle 0x4facfe (decimal 8 1).

Definition borderRadius : num := decimal 501 2.

(** The body of [coords.forEach] in [createCountryBorders]: the point of one
    coordinate, or nothing when the coordinate is skipped.  The elements
    are numbers by the type of the data, so the [typeof] tests pass. *)
Definition borderPoint (coord : list num) : option (Vector3 num) :=
  match coord with
  | lon :: lat :: _ =>
      if isNaN lon || isNaN lat then None
      else
        let phi := (ofZ 90 - lat) * (Math_PI / ofZ 180) in
        let theta := (lon + ofZ 180) * (Math_PI / ofZ 180) in
        let x := - borderRadius * Math_sin phi * Math_cos theta in
        let y := borderRadius * Math_cos phi in
        let z := borderRadius * Math_sin phi * Math_sin theta in
        if negb (isNaN x) && negb (isNaN y) && negb (isNaN z)
        then Some (mkVector3 x y z) else None
  | _ => None
  end.

Definition ringPoints (coords : list (list num)) : list (Vector3 num) :=
  flat_map (fun coord => match borderPoint coord with
                         | Some p => [p]
                         | None => []
                         end)
           coords.

(** The body of [feature.geometry.coordinates.forEach]: the line of one
    ring, or nothing. *)
Definition ringLine (coords : list (list num)) : option (Line num) :=
  if List.length coords <? 2 then None
  else
    let points := ringPoints coords in
    if List.length points <? 2 then None
    else if validateGeometry (setFromPoints points)
         then Some (mkLine points plainStyle)
         else None.

(** The children of the group [createCountryBorders] returns, in the order
    they are added. *)
Definition createCountryBorders (features : list (Feature num))
    : list (Line num) :=
  flat_map (fun feature =>
              flat_map (fun coords => match ringLine coords with
                                      | Some line => [line]
                                      | None => []
                                      end)
                       (coordinates feature))
           features.

Definition restyle (s : LineStyle num) (line : Line num) : Line num :=
  mkLine (linePoints line) s.

(** [countryLines.children[index]] restyled when it exists. *)
Fixpoint highlightAt (index : nat) (children : list (Line num))
    : list (Line num) :=
  match children, index with
  | [], _ => []
  | line :: rest, O => restyle litStyle line :: rest
  | line :: rest, S i => line :: highlightAt i rest
  end.

(** [highlightCountry(lat, lon, geoJson)].  Every child of the group is a
    line and every ring is an array, so the [instanceof] and [!coords]
    tests pass. *)
Definition highlightCountry (lat lon : num) (features : list (Feature num))
    (st : Highlight num) : Highlight num :=
  if isNaN lat || isNaN lon then st
  else
    match find (fun feature => geoContains feature lon lat) features,
          countryLines st with
    | Some country, Some children =>
        let reset := map (restyle plainStyle) children in
        let lit :=
          fold_left (fun lines index => highlightAt index lines)
                    (seq 0 (List.length (coordinates country))) reset in
        mkHighlight (Some lit)
          (if String.eqb (name country) "" then "Unknown"%string
           else name country)
    | _, _ => st
    end.

End Borders.

End Countries.

(** The Euclidean inner product, in exact arithmetic. *)
Definition dot (u v : Vector3 R) : R :=
  (THREE.x u * THREE.x v + THREE.y u * THREE.y v + THREE.z u * THREE.z v)%R.

(** What the two lines of the orbit group show after the points [vs] were
    handed over: the placeholder of [createOrbitLine] until a point is
    accepted, then the newest [MAX_TRAIL_LENGTH] accepted points and the
    arc extrapolated from them. *)
Definition keptPoints {num : Type} `{JSNumber num}
    (vs : list (Vector3 num)) : list (Vector3 num) :=
  lastn Globe.MAX_TRAIL_LENGTH (filter Globe.accepted vs).

Definition shownPast {num : Type} `{JSNumber num}
    (vs : list (Vector3 num)) : list (Vector3 num) :=
  match keptPoints vs with
  | [] => [Globe.origin]
  | kept => kept
  end.

Definition shownFuture {num : Type} `{JSNumber num} `{JSMath num}
    (vs : list (Vector3 num)) : list (Vector3 num) :=
  match keptPoints vs with
  | [] => [Globe.origin]
  | kept => Globe.futurePoints kept
  end.

(** A state whose two lines show what was handed over. *)
Definition drawn {num : Type} `{JSNumber num} `{JSMath num}
    (st : Globe.State num) (vs : list (Vector3 num)) : Prop :=
  Globe.tracks st vs
  /\ Globe.pastLine st = shownPast vs
  /\ Globe.futureLine st = shownFuture vs.

(** A ready scene whose marker sits on the last accepted point, or on [m]
    when there is none yet. *)
Definition steered {num : Type} `{JSNumber num} `{JSMath num}
    (st : Globe.State num) (vs : list (Vector3 num)) (m : Vector3 num)
    : Prop :=
  drawn st vs
  /\ Globe.sceneManager st = true
  /\ Globe.issMarker st = Some (last (filter Globe.accepted vs) m).

(** ** The wiring of the component: the callbacks [initScene] hands to
    [startTracking], [handleError] of [useErrorHandler], and
    [cleanupResources] *)

Module Component.

(** What the callbacks read and write: the scene with its orbit line, the
    [issPosition] signal, the border highlight with the country name, and
    the message of the [error] signal (the [details] and [timestamp] of the
    error state are left out). *)
Record View (num : Type) : Type := mkView {
  scene : Globe.State num;
  issPosition : option (ISSPosition num);
  highlight : Countries.Highlight num;
  error : option string
}.

Section Wiring.
Context {num : Type} `{JSNumber num} `{JSMath num}.
Variable geoContains : Countries.Feature num -> num -> num -> bool.
(** [geoJson.features], as fetched by [createCountryBorders]. *)
Variable features : list (Countries.Feature num).

(** The [onUpdate] callback of [initScene]. *)
Definition onUpdate (position : ISSPosition num) (v : View num)
    : View num :=
  mkView (Globe.updateISSPosition (scene v) position)
         (Some position)
         (Countries.highlightCountry geoContains
            (Types.latitude position) (Types.longitude position)
            features (highlight v))
         (error v).

(** [handleError], the [onError] callback.  [startTracking] always passes
    an [Error], so the message shown is the error's. *)
Definition handleError (e : ISSService.Error) (v : View num) : View num :=
  mkView (scene v) (issPosition v) (highlight v)
         (Some (ISSService.errorMessage e)).

(** What an action of the tracking loop does to the view. *)
Definition dispatch (v : View num) (a : ISSService.Action (num := num))
    : View num :=
  match a with
  | ISSService.OnUpdate position => onUpdate position v
  | ISSService.OnError e => handleError e v
  | ISSService.Request _ | ISSService.Abort _ => v
  end.

(** [cleanupResources], on the view: [orbitPoints = []], and
    [sceneManager], [issMarker] and [countryLines] become undefined.  The
    functions of [cleanupFunctions] act on the tracker (the handle of
    [startTracking]) and on the page. *)
Definition cleanupResources (v : View num) : View num :=
  mkView (Globe.mkState (Globe.heap (scene v)) false None []
            (Globe.pastLine (scene v)) (Globe.futureLine (scene v)))
         (issPosition v)
         (Countries.mkHighlight None
            (Countries.currentCountry (highlight v)))
         (error v).

End Wiring.

End Component.

(** ** The loading manager ([utils/loadingManager.ts]) *)

Module Loading.

Local Open Scope string_scope.

(** The three signals and the two counters of a [LoadingManager]. *)
Record Manager (num : Type) : Type := mkManager {
  progress : num;
  isLoading : bool;
  error : option string;
  itemsTotal : nat;
  itemsLoaded : nat
}.

(** What can happen to a manager: the three callbacks it gives to
    [THREE.LoadingManager], which reports counts of items, and its three
    public methods. *)
Inductive Call : Type :=
| OnLoad
| OnProgress (url : string) (loaded total : nat)
| OnError (url : string)
| StartLoading
| SetLoadingError (message : string)
| ForceComplete.

Section Manager.
Context {num : Type} `{JSNumber num}.
Local Open Scope js_scope.

(** The constructor. *)
Definition create : Manager num := mkManager (ofZ 0) true None 0 0.

Definition call (m : Manager num) (c : Call) : Manager num :=
  match c with
  | OnLoad =>
      mkManager (progress m) false None (itemsTotal m) (itemsLoaded m)
  | OnProgress _ loaded total =>
      mkManager
        (if (0 <? total)%nat
         then ofZ (Z.of_nat loaded) / ofZ (Z.of_nat total) * ofZ 100
         else ofZ 0)
        (isLoading m) (error m) total loaded
  | OnError url =>
      mkManager (progress m) false
                (Some (String.append "Failed to load " url))
                (itemsTotal m) (itemsLoaded m)
  | StartLoading => mkManager (ofZ 0) true None 0 0
  | SetLoadingError message =>
      mkManager (progress m) false (Some message)
                (itemsTotal m) (itemsLoaded m)
  | ForceComplete =>
      mkManager (ofZ 100) false None (itemsTotal m) (itemsLoaded m)
  end.

(** A progress report as [THREE.LoadingManager] makes them: no more items
    loaded than there are. *)
Definition consistent (c : Call) : Prop :=
  match c with
  | OnProgress _ loaded total => loaded <= total
  | _ => True
  end.

End Manager.

End Loading.

(** ** Sample borders *)

Definition sampleRing : list (list R) := [[0; 0]; [1; 0]; [1; 1]]%R.

(** Two countries: the first with two rings, the second with one. *)
Definition sampleFeatures : list (Countries.Feature R) :=
  [Countries.mkFeature "Peru" [sampleRing; sampleRing];
   Countries.mkFeature "Chile" [sampleRing]].

(** A position attribute holding the coordinates of the points. *)
Definition flatPoints (points : list (Vector3 R)) : option (list R) :=
  Some (flat_map (fun p => [THREE.x p; THREE.y p; THREE.z p]) points).

(** A containment test that picks the country by name. *)
Definition byName (wanted : string) (feature : Countries.Feature R)
    (lon lat : R) : bool :=
  String.eqb (Countries.name feature) wanted.

Definition sampleHighlight : Countries.Highlight R :=
  Countries.mkHighlight
    (Some (Countries.createCountryBorders flatPoints sampleFeatures)) "".

(** ** Exact arithmetic with the constant of the program

    [Math.PI] is a binary64 number, not pi; it lies below pi.  The same
    exact arithmetic with [Math_PI] any real number [P]. *)
Definition RMathWith (P : R) : JSMath R := {|
  Math_sin := Rtrigo_def.sin;
  Math_cos := Rtrigo_def.cos;
  Math_PI := P
|}.

(** The real number that the binary64 constant [Math.PI] is:
    7074237752028440 * 2^-51. *)
Definition exactPI : R := (884279719003555 / 281474976710656)%R.

(** ** Binary64 magnitudes *)

(** A finite number with exponent at most [k] in its canonical
    representation [m * 2^e], or a zero. *)
Definition exponentBelow (k : Z) (a : float) : Prop :=
  match Prim2SF a with
  | S754_zero _ => True
  | S754_finite _ _ e => (e <= k)%Z
  | _ => False
  end.

(** ** [Math.sin] and [Math.cos] at a few angles

    [Math.sin] and [Math.cos] are not part of the repository.  These are
    the values the engines return at the four angles the statements on
    binary64 need: 0, [Math.PI / 4], [Math.PI / 2] and [2 * Math.PI]. *)
Definition quarterPi : float := 0x1.921fb54442d18p-1%float.
Definition halfPi : float := 0x1.921fb54442d18p+0%float.
Definition twoPi : float := 0x1.921fb54442d18p+2%float.

Definition engineValues (sin cos : float -> float) : Prop :=
  sin 0%float = 0%float
  /\ cos 0%float = 1%float
  /\ sin quarterPi = 0x1.6a09e667f3bccp-1%float
  /\ cos quarterPi = 0x1.6a09e667f3bcdp-1%float
  /\ sin halfPi = 1%float
  /\ cos halfPi = 0x1.1a62633145c07p-54%float
  /\ sin twoPi = (-0x1.1a62633145c07p-52)%float
  /\ cos twoPi = 1%float.

(** A function known on the arguments of a table; NaN elsewhere. *)
Fixpoint tableMath (table : list (float * float)) (a : float) : float :=
  match table with
  | [] => nan
  | (key, value) :: rest =>
      if PrimFloat.eqb key a then value else tableMath rest a
  end.

Definition engineSin : float -> float :=
  tableMath [(0%float, 0%float);
             (quarterPi, 0x1.6a09e667f3bccp-1%float);
             (halfPi, 1%float);
             (twoPi, (-0x1.1a62633145c07p-52)%float)].

Definition engineCos : float -> float :=
  tableMath [(0%float, 1%float);
             (quarterPi, 0x1.6a09e667f3bcdp-1%float);
             (halfPi, 0x1.1a62633145c07p-54%float);
             (twoPi, 1%float)].

(** ** The tracking loop with callbacks that may throw

    [ISSService.step] is the loop when [onUpdate] and [onError] return
    normally.  In [track] the call of [onUpdate] sits inside the [try], so
    an exception of [onUpdate] is caught and handed to [onError]; an
    exception of [onError] leaves the [catch] block, rejects the promise of
    [track()] and ends the loop. *)

Module Callbacks.

Local Open Scope string_scope.
Local Open Scope list_scope.

(** What a call of a callback does: it returns ([None]) or it throws. *)
Definition Outcome : Type := option ISSService.Thrown.

(** The events that resume the loop.  An answer comes with what the
    callbacks do if they are called for it: [update] for [onUpdate],
    [error] for [onError]. *)
Inductive LoopEvent : Type :=
| Answered (answer : ISSService.FetchOutcome) (update error : Outcome)
| Timer
| Handle.

(** The events of [ISSService], with callbacks that return. *)
Definition quiet (e : ISSService.Event) : LoopEvent :=
  match e with
  | ISSService.Settled answer => Answered answer None None
  | ISSService.TimerFired => Timer
  | ISSService.Cancel => Handle
  end.

Section Loop.
Context {num : Type} `{JSNumber num}.
Variable parseFloat : string -> num.
Import ISSService.

(** The [catch] block of [track]: the error it hands to [onError]. *)
Definition caught (thrown : Thrown) : Error :=
  match thrown with
  | IsError e => e
  | NotError => mkError "Error" "Unknown error occurred during tracking"
  end.

(** [onError(error)] in the [catch] block, then the timer; when [onError]
    throws, [track] is over. *)
Definition report (t : Tracker) (error : Error) (outcome : Outcome)
    : Tracker * list (Action (num := num)) :=
  (mkTracker (isTracking t) (controller t) (created t)
             (match outcome with
              | None => Sleeping
              | Some _ => Finished
              end),
   [OnError error]).

Definition step (t : Tracker) (e : LoopEvent)
    : Tracker * list (Action (num := num)) :=
  match e, phase t with
  | Answered answer update error, AwaitingPosition =>
      match getPosition parseFloat answer with
      | inr position =>
          match update with
          | None =>
              (mkTracker (isTracking t) (controller t) (created t) Sleeping,
               [OnUpdate position])
          | Some thrown =>
              (fst (report t (caught thrown) error),
               OnUpdate position :: snd (report t (caught thrown) error))
          end
      | inl err => report t err error
      end
  | Timer, Sleeping => loopTest t
  | Handle, _ =>
      cancelRequest
        (mkTracker false (controller t) (created t) (phase t))
  | _, _ => (t, [])
  end.

Fixpoint run (t : Tracker) (es : list LoopEvent)
    : Tracker * list (Action (num := num)) :=
  match es with
  | [] => (t, [])
  | e :: es' =>
      let (t1, a1) := step t e in
      let (t2, a2) := run t1 es' in
      (t2, a1 ++ a2)
  end.

(** Polling through [rounds], each an answer with what [onUpdate] does
    when called for it, while [onError] returns: the answer arrives, then
    the timer fires. *)
Definition pollingWith (rounds : list (FetchOutcome * Outcome))
    : list LoopEvent :=
  flat_map (fun r => [Answered (fst r) (snd r) None; Timer]) rounds.

(** The callbacks of one round. *)
Definition callsOf (r : FetchOutcome * Outcome)
    : list (Action (num := num)) :=
  match getPosition parseFloat (fst r) with
  | inr position =>
      OnUpdate position
      :: match snd r with
         | None => []
         | Some thrown => [OnError (caught thrown)]
         end
  | inl error => [OnError error]
  end.

(** What the loop does on them when the pending request uses controller
    [c]. *)
Fixpoint roundsWith (c : nat) (rounds : list (FetchOutcome * Outcome))
    : list (Action (num := num)) :=
  match rounds with
  | [] => []
  | r :: rest =>
      callsOf r ++ Abort c :: Request (S c) :: roundsWith (S c) rest
  end.

End Loop.

End Callbacks.

(** * Properties *)

(** ** The trail buffer *)

Section ListFacts.
Variable A : Type.

Lemma lastn_length (n : nat) (l : list A) :
  List.length (lastn n l) = Nat.min n (List.length l).
Proof. unfold lastn. rewrite length_skipn. lia. Qed.

(** Pushing at the end of a full window drops its head. *)
Lemma lastn_push (n : nat) (l : list A) (a : A) :
  0 < n ->
  lastn n (l ++ [a]) =
    (if n <? List.length (lastn n l ++ [a])
     then tl (lastn n l ++ [a]) else lastn n l ++ [a]).
Proof.
  intros Hn.
  assert (Hlen : List.length (lastn n l ++ [a])
                 = S (Nat.min n (List.length l))).
  { rewrite length_app, lastn_length. simpl. lia. }
  rewrite Hlen. unfold lastn. rewrite length_app. simpl List.length.
  destruct (Nat.ltb_spec n (S (Nat.min n (List.length l)))) as [Hfull|Hroom].
  - assert (Hle : n <= List.length l) by lia.
    replace (List.length l + 1 - n) with (S (List.length l - n)) by lia.
    rewrite skipn_app.
    replace (S (List.length l - n) - List.length l) with 0 by lia.
    simpl (skipn 0 [a]).
    remember (List.length l - n) as k eqn:Hk.
    assert (Hk' : k < List.length l) by lia.
    clear Hk Hle Hfull Hlen. revert k Hk'.
    induction l as [|b l IH]; intros k Hk'; simpl in Hk'; [lia|].
    destruct k as [|k].
    + reflexivity.
    + simpl skipn at 2. destruct l as [|c l].
      * simpl in Hk'. lia.
      * change (skipn (S (S k)) (b :: c :: l)) with (skipn (S k) (c :: l)).
        apply IH. simpl in *. lia.
  - replace (List.length l + 1 - n) with 0 by lia.
    replace (List.length l - n) with 0 by lia.
    reflexivity.
Qed.

Lemma lastn_map (B : Type) (f : A -> B) (n : nat) (l : list A) :
  map f (lastn n l) = lastn n (map f l).
Proof. unfold lastn. rewrite length_map. apply eq_sym, skipn_map. Qed.

Lemma Forall_lastn (P : A -> Prop) (n : nat) (l : list A) :
  Forall P l -> Forall P (lastn n l).
Proof.
  intros HP. unfold lastn.
  rewrite <- (firstn_skipn (List.length l - n) l) in HP.
  apply Forall_app in HP. tauto.
Qed.

End ListFacts.

Section GlobeFacts.
Context {num : Type} `{JSNumber num} `{JSMath num}.
Import Globe.

Abbreviation State := (Globe.State num).

Lemma clone_eq (v : Vector3 num) : THREE.clone v = v.
Proof. destruct v; reflexivity. Qed.

Lemma nth_error_alloc_new (h : Heap) (v : Vector3 num) :
  nth_error (h ++ [v]) (List.length h) = Some v.
Proof. rewrite nth_error_app2, Nat.sub_diag by lia. reflexivity. Qed.

Lemma nth_error_alloc_old (h : Heap) (v : Vector3 num) (r : Ref) :
  r < List.length h -> nth_error (h ++ [v]) r = nth_error h r.
Proof. intros Hr. apply nth_error_app1, Hr. Qed.

Lemma map_nth_error_alloc (h : Heap) (v : Vector3 num) (refs : list Ref) :
  Forall (fun r => r < List.length h) refs ->
  map (nth_error (h ++ [v])) refs = map (nth_error h) refs.
Proof.
  induction 1 as [|r refs Hr _ IH]; simpl; [reflexivity|].
  rewrite IH, nth_error_alloc_old by assumption. reflexivity.
Qed.

Lemma validPoint_of_value (h : Heap) (r : Ref) (p : Vector3 num) :
  nth_error h r = Some p ->
  validPoint h r = negb (invalidPosition p).
Proof.
  intros Hp. unfold validPoint, invalidPosition. rewrite Hp.
  destruct (isNaN (THREE.x p)), (isNaN (THREE.y p)), (isNaN (THREE.z p));
    reflexivity.
Qed.

Lemma validValues_length (h : Heap) (refs : list Ref) :
  List.length (validValues h refs)
  = List.length (filter (validPoint h) refs).
Proof.
  unfold validValues.
  induction refs as [|r refs IH]; simpl; [reflexivity|].
  destruct (validPoint h r) eqn:Hv; [|exact IH].
  simpl. unfold validPoint in Hv.
  destruct (nth_error h r); [simpl; rewrite IH; reflexivity|discriminate].
Qed.

Lemma pushPoint_last (refs : list Ref) (newPoint : Ref) :
  exists front, pushPoint refs newPoint = front ++ [newPoint].
Proof.
  unfold pushPoint.
  destruct (Nat.ltb_spec MAX_TRAIL_LENGTH (List.length (refs ++ [newPoint])))
    as [Hfull|_].
  - destruct refs as [|r refs].
    + simpl in Hfull. unfold MAX_TRAIL_LENGTH in Hfull. lia.
    + exists refs. reflexivity.
  - exists refs. reflexivity.
Qed.

Lemma pushPoint_length (refs : list Ref) (newPoint : Ref) :
  List.length refs <= MAX_TRAIL_LENGTH ->
  List.length (pushPoint refs newPoint) <= MAX_TRAIL_LENGTH.
Proof.
  intros Hle. unfold pushPoint.
  destruct (Nat.ltb_spec MAX_TRAIL_LENGTH (List.length (refs ++ [newPoint])))
    as [Hfull|Hroom]; [|exact Hroom].
  rewrite length_app in Hfull. simpl in Hfull.
  destruct refs as [|r refs]; simpl in *; [lia|].
  rewrite length_app. simpl. lia.
Qed.

(** A rejected position leaves the whole state as it was. *)
Lemma updateOrbitLine_rejected (st : State) (position : Ref)
    (p : Vector3 num) :
  nth_error (heap st) position = Some p ->
  invalidPosition p = true ->
  updateOrbitLine st position = st.
Proof.
  intros Hp Hbad. unfold updateOrbitLine. rewrite Hp, Hbad. reflexivity.
Qed.

(** An accepted position: the clone is pushed and both lines are redrawn
    (the new point is valid, so the early return is not taken). *)
Lemma updateOrbitLine_accepted (st : State) (position : Ref)
    (p : Vector3 num) :
  nth_error (heap st) position = Some p ->
  invalidPosition p = false ->
  let h1 := heap st ++ [p] in
  let points := pushPoint (orbitPoints st) (List.length (heap st)) in
  updateOrbitLine st position =
    mkState h1 (sceneManager st) (issMarker st) points
            (validValues h1 points) (futurePoints (validValues h1 points)).
Proof.
  intros Hp Hok h1 points. unfold updateOrbitLine, alloc.
  rewrite Hp, Hok, clone_eq.
  fold (pushPoint (orbitPoints st) (List.length (heap st))).
  fold h1. fold points.
  destruct (pushPoint_last (orbitPoints st) (List.length (heap st)))
    as [front Hfront].
  fold points in Hfront.
  assert (Hvalid : validPoint h1 (List.length (heap st)) = true).
  { rewrite (validPoint_of_value h1 (List.length (heap st)) (p := p)).
    - rewrite Hok. reflexivity.
    - apply nth_error_alloc_new. }
  assert (Hne : (List.length (filter (validPoint h1) points) =? 0) = false).
  { rewrite Hfront, filter_app. simpl. rewrite Hvalid.
    rewrite length_app. simpl. apply Nat.eqb_neq. lia. }
  rewrite Hne. reflexivity.
Qed.

(** *** Runs of [feed] *)

Lemma feed_rejected (st : State) (v : Vector3 num) :
  invalidPosition v = true ->
  feed st v = mkState (heap st ++ [v]) (sceneManager st) (issMarker st)
                      (orbitPoints st) (pastLine st) (futureLine st).
Proof.
  intros Hbad. unfold feed, alloc.
  apply updateOrbitLine_rejected with (p := v); [|exact Hbad].
  apply nth_error_alloc_new.
Qed.

Lemma feed_accepted (st : State) (v : Vector3 num) :
  invalidPosition v = false ->
  let h1 := (heap st ++ [v]) ++ [v] in
  let points := pushPoint (orbitPoints st) (S (List.length (heap st))) in
  feed st v = mkState h1 (sceneManager st) (issMarker st) points
                (validValues h1 points)
                (futurePoints (validValues h1 points)).
Proof.
  intros Hok h1 points. unfold feed, alloc.
  rewrite updateOrbitLine_accepted with (p := v);
    [|apply nth_error_alloc_new|exact Hok].
  simpl. subst h1 points. rewrite length_app. simpl.
  replace (List.length (heap st) + 1) with (S (List.length (heap st)))
    by lia.
  reflexivity.
Qed.

Lemma tracks_init (h : Heap) (ready : bool) (marker : option (Vector3 num)) :
  tracks (createOrbitLine h ready marker) [].
Proof. exists []. repeat split; constructor. Qed.

Lemma tracks_feed (st : State) (vs : list (Vector3 num)) (v : Vector3 num) :
  tracks st vs -> tracks (feed st v) (vs ++ [v]).
Proof.
  intros (refs & Hwin & Hlt & Hval).
  assert (Hfilter : filter accepted (vs ++ [v])
                    = filter accepted vs
                      ++ (if invalidPosition v then [] else [v])).
  { rewrite filter_app. simpl. unfold accepted at 2.
    destruct (invalidPosition v); reflexivity. }
  unfold tracks. rewrite Hfilter. clear Hfilter.
  destruct (invalidPosition v) eqn:Hv.
  - rewrite feed_rejected by exact Hv. exists refs. simpl.
    rewrite app_nil_r. repeat split.
    + exact Hwin.
    + eapply Forall_impl; [|exact Hlt].
      intros r Hr. simpl in Hr. rewrite length_app. simpl. lia.
    + rewrite map_nth_error_alloc by exact Hlt. exact Hval.
  - rewrite feed_accepted by exact Hv.
    exists (refs ++ [S (List.length (heap st))]).
    cbn [heap orbitPoints]. repeat split.
    + rewrite Hwin. unfold pushPoint. symmetry. apply lastn_push.
      unfold MAX_TRAIL_LENGTH. lia.
    + apply Forall_app. split.
      * eapply Forall_impl; [|exact Hlt].
        intros r Hr. simpl in Hr. rewrite !length_app. simpl. lia.
      * constructor; [|constructor]. rewrite !length_app. simpl. lia.
    + rewrite !map_app. cbn [map]. f_equal.
      * rewrite map_nth_error_alloc.
        -- rewrite map_nth_error_alloc by exact Hlt. exact Hval.
        -- eapply Forall_impl; [|exact Hlt].
           intros r Hr. simpl in Hr. rewrite length_app. simpl. lia.
      * f_equal.
        replace (S (List.length (heap st)))
          with (List.length (heap st ++ [v]))
          by (rewrite length_app; simpl; lia).
        apply nth_error_alloc_new.
Qed.

Lemma tracks_feedAll (st : State) (vs ws : list (Vector3 num)) :
  tracks st vs -> tracks (feedAll st ws) (vs ++ ws).
Proof.
  revert st vs. induction ws as [|w ws IH]; intros st vs Hst; simpl.
  - rewrite app_nil_r. exact Hst.
  - replace (vs ++ w :: ws) with ((vs ++ [w]) ++ ws)
      by (rewrite <- app_assoc; reflexivity).
    apply IH, tracks_feed, Hst.
Qed.

Lemma tracks_trailPoints (st : State) (vs : list (Vector3 num)) :
  tracks st vs ->
  trailPoints st = map Some (lastn MAX_TRAIL_LENGTH (filter accepted vs)).
Proof.
  intros (refs & Hwin & _ & Hval). unfold trailPoints.
  rewrite Hwin, (lastn_map (nth_error (heap st))), Hval.
  symmetry. apply lastn_map.
Qed.

Lemma tracks_length (st : State) (vs : list (Vector3 num)) :
  tracks st vs ->
  List.length (orbitPoints st)
  = Nat.min MAX_TRAIL_LENGTH (List.length (filter accepted vs)).
Proof.
  intros (refs & Hwin & _ & Hval). rewrite Hwin, lastn_length.
  f_equal. rewrite <- (length_map (nth_error (heap st))), Hval.
  apply length_map.
Qed.

Lemma tracks_allocated (st : State) (vs : list (Vector3 num)) :
  tracks st vs -> allocated st.
Proof.
  intros (refs & Hwin & Hlt & _). unfold allocated. rewrite Hwin.
  apply Forall_lastn, Hlt.
Qed.

Lemma tl_app_nonempty (A : Type) (l : list A) (a : A) :
  l <> [] -> tl (l ++ [a]) = tl l ++ [a].
Proof. destruct l; [congruence|reflexivity]. Qed.

(** C3. For every sequence of points handed to [updateOrbitLine], starting
    from the freshly created orbit line: the buffer never holds more than
    [MAX_TRAIL_LENGTH] (100) points, and exactly 100 once more than 100 were
    accepted; it holds the newest 100 accepted points in the order they
    arrived; and one more accepted point is appended at the end, the point
    at position 0 being dropped exactly when the buffer was full. *)
Theorem trail_buffer_bounded_fifo (h : Heap) (ready : bool)
    (marker : option (Vector3 num)) (vs : list (Vector3 num)) :
  let st := feedAll (createOrbitLine h ready marker) vs in
  List.length (orbitPoints st) <= MAX_TRAIL_LENGTH
  /\ List.length (orbitPoints st)
     = Nat.min MAX_TRAIL_LENGTH (List.length (filter accepted vs))
  /\ trailPoints st
     = map Some (lastn MAX_TRAIL_LENGTH (filter accepted vs))
  /\ forall v : Vector3 num,
       trailPoints (feed st v)
       = if invalidPosition v then trailPoints st
         else (if List.length (trailPoints st) <? MAX_TRAIL_LENGTH
               then trailPoints st else tl (trailPoints st))
              ++ [Some v].
Proof.
  intros st.
  assert (Hst : tracks st vs).
  { apply (tracks_feedAll (vs := []) vs), tracks_init. }
  split; [|split; [|split]].
  - rewrite (tracks_length Hst). apply Nat.le_min_l.
  - apply tracks_length, Hst.
  - apply tracks_trailPoints, Hst.
  - intros v.
    rewrite (tracks_trailPoints (tracks_feed v Hst)).
    rewrite (tracks_trailPoints Hst).
    rewrite filter_app. simpl. unfold accepted at 2.
    destruct (invalidPosition v); simpl.
    + rewrite app_nil_r. reflexivity.
    + rewrite lastn_push by (unfold MAX_TRAIL_LENGTH; lia).
      set (w := lastn MAX_TRAIL_LENGTH (filter accepted vs)).
      assert (Hw : List.length w <= MAX_TRAIL_LENGTH).
      { unfold w. rewrite lastn_length. apply Nat.le_min_l. }
      rewrite length_app, length_map. simpl List.length.
      destruct (Nat.ltb_spec MAX_TRAIL_LENGTH (List.length w + 1))
        as [Hfull|Hroom].
      * destruct (Nat.ltb_spec (List.length w) MAX_TRAIL_LENGTH) as [Hlt|_];
          [lia|].
        rewrite tl_app_nonempty.
        -- rewrite map_app. simpl. f_equal.
           destruct w; reflexivity.
        -- intros Hnil. rewrite Hnil in Hfull. simpl in Hfull.
           unfold MAX_TRAIL_LENGTH in Hfull. lia.
      * destruct (Nat.ltb_spec (List.length w) MAX_TRAIL_LENGTH) as [_|Hge];
          [|lia].
        rewrite map_app. reflexivity.
Qed.

(** *** Aliasing *)

Lemma nth_error_store_other (h : Heap) (r r' : Ref) (v : Vector3 num) :
  r <> r' -> nth_error (store h r v) r' = nth_error h r'.
Proof.
  revert r r'. induction h as [|a h IH]; intros r r' Hne.
  - destruct r; reflexivity.
  - destruct r as [|r], r' as [|r']; simpl; try reflexivity.
    + congruence.
    + apply IH. congruence.
Qed.

Lemma In_pushPoint (refs : list Ref) (newPoint r : Ref) :
  In r (pushPoint refs newPoint) -> In r refs \/ r = newPoint.
Proof.
  unfold pushPoint.
  destruct (MAX_TRAIL_LENGTH <? List.length (refs ++ [newPoint])).
  - destruct refs as [|a refs]; simpl.
    + tauto.
    + intros Hin. apply in_app_or in Hin. simpl in Hin.
      intuition congruence.
  - intros Hin. apply in_app_or in Hin. simpl in Hin.
    intuition congruence.
Qed.

Lemma trailPoints_mutate (st : State) (r : Ref) (v : Vector3 num) :
  ~ In r (orbitPoints st) -> trailPoints (mutate st r v) = trailPoints st.
Proof.
  intros Hnot. unfold trailPoints, mutate. simpl.
  apply map_ext_in. intros r' Hin.
  apply nth_error_store_other. intros Heq. subst r'. exact (Hnot Hin).
Qed.

Lemma updateOrbitLine_private (st : State) (position : Ref)
    (p : Vector3 num) :
  nth_error (heap st) position = Some p ->
  ~ In position (orbitPoints st) ->
  ~ In position (orbitPoints (updateOrbitLine st position)).
Proof.
  intros Hp Hnot.
  destruct (invalidPosition p) eqn:Hv.
  - rewrite (updateOrbitLine_rejected st position Hp Hv). exact Hnot.
  - rewrite (updateOrbitLine_accepted st position Hp Hv). simpl.
    intros Hin. apply In_pushPoint in Hin. destruct Hin as [Hin|Heq].
    + exact (Hnot Hin).
    + assert (Hlt : position < List.length (heap st)).
      { apply nth_error_Some. rewrite Hp. discriminate. }
      lia.
Qed.

(** C10. [updateOrbitLine] pushes a clone of the incoming point, never the
    caller's object: whatever coordinates the caller later assigns to its
    own object, every buffered point reads as before; and when the point
    was accepted, the newest buffered point still holds the coordinates
    the caller's object had at the call. *)
Theorem clone_isolates_trail (st : State) (position : Ref)
    (p v' : Vector3 num) :
  nth_error (heap st) position = Some p ->
  ~ In position (orbitPoints st) ->
  let st' := updateOrbitLine st position in
  trailPoints (mutate st' position v') = trailPoints st'
  /\ (invalidPosition p = false ->
      exists older, trailPoints (mutate st' position v') = older ++ [Some p]).
Proof.
  intros Hp Hnot st'.
  assert (Hframe : trailPoints (mutate st' position v') = trailPoints st').
  { apply trailPoints_mutate.
    apply (updateOrbitLine_private st position Hp Hnot). }
  split; [exact Hframe|].
  intros Hv. rewrite Hframe. unfold st'.
  rewrite (updateOrbitLine_accepted st position Hp Hv).
  unfold trailPoints. simpl.
  destruct (pushPoint_last (orbitPoints st) (List.length (heap st)))
    as [front Hfront].
  rewrite Hfront, map_app. simpl.
  rewrite nth_error_alloc_new. eexists. reflexivity.
Qed.

End GlobeFacts.

(** ** The projection *)

Section ProjectionFacts.
Context {num : Type} `{JSNumber num} `{JSMath num}.
Import Globe.

Lemma newPosition_project (position : ISSPosition num) :
  newPosition position
  = Spec.project (Types.latitude position) (Types.longitude position).
Proof. reflexivity. Qed.

Lemma updateISSPosition_accepted (st : Globe.State num)
    (position : ISSPosition num) (marker : Vector3 num) :
  sceneManager st = true ->
  issMarker st = Some marker ->
  invalidPosition (newPosition position) = false ->
  let p := newPosition position in
  let h1 := (heap st ++ [p]) ++ [p] in
  let points := pushPoint (orbitPoints st) (S (List.length (heap st))) in
  updateISSPosition st position
  = mkState h1 true (Some p) points (validValues h1 points)
            (futurePoints (validValues h1 points)).
Proof.
  intros Hscene Hmarker Hok p h1 points.
  unfold updateISSPosition. rewrite Hscene, Hmarker. cbv zeta.
  rewrite Hok. unfold alloc.
  rewrite updateOrbitLine_accepted with (p := p);
    [|apply nth_error_alloc_new|exact Hok].
  cbn [heap sceneManager issMarker orbitPoints].
  rewrite length_app. simpl List.length.
  replace (List.length (heap st) + 1) with (S (List.length (heap st)))
    by lia.
  reflexivity.
Qed.

(** C1. For every latitude and longitude, the point built by
    [updateISSPosition] is exactly the specification's projection, with
    [radius] the literal 5.2:
    [phi = (90 - latitude) * (PI / 180)],
    [theta = (longitude + 180) * (PI / 180)],
    [x = -radius * sin phi * cos theta], [y = radius * cos phi],
    [z = radius * sin phi * sin theta]; and when the scene is set up and the
    point is accepted, that point becomes the marker's position and the
    newest point of the trail. *)
Theorem projection_formula (st : Globe.State num)
    (position : ISSPosition num) :
  let projected :=
    Spec.project (Types.latitude position) (Types.longitude position) in
  let st' := updateISSPosition st position in
  Globe.radius = decimal 52 1
  /\ newPosition position = projected
  /\ (sceneManager st = true ->
      issMarker st <> None ->
      invalidPosition (newPosition position) = false ->
      issMarker st' = Some projected
      /\ exists older, trailPoints st' = older ++ [Some projected]).
Proof.
  intros projected st'.
  split; [reflexivity|]. split; [reflexivity|].
  intros Hscene Hmarker Hok.
  destruct (issMarker st) as [marker|] eqn:Hsome; [|congruence].
  unfold st'.
  rewrite (updateISSPosition_accepted st position Hscene Hsome Hok).
  split; [reflexivity|].
  unfold trailPoints. cbn [heap orbitPoints].
  destruct (pushPoint_last (orbitPoints st) (S (List.length (heap st))))
    as [front Hfront].
  rewrite Hfront, map_app. cbn [map].
  replace (S (List.length (heap st)))
    with (List.length (heap st ++ [newPosition position]))
    by (rewrite length_app; simpl; lia).
  rewrite nth_error_alloc_new. eexists. reflexivity.
Qed.

End ProjectionFacts.

(** ** The future arc *)

Section FutureArcFacts.
Context {num : Type} `{JSNumber num} `{JSMath num}.
Import Globe.

Lemma futurePoints_short (values : list (Vector3 num)) :
  List.length values < 2 -> futurePoints values = [].
Proof.
  intros Hlt. unfold futurePoints.
  destruct (Nat.leb_spec 2 (List.length values)); [lia|reflexivity].
Qed.

Lemma futurePoints_long (values : list (Vector3 num)) :
  2 <= List.length values ->
  exists lastPoint secondLastPoint,
    nth_error values (List.length values - 1) = Some lastPoint
    /\ nth_error values (List.length values - 2) = Some secondLastPoint
    /\ futurePoints values
       = map (futurePoint lastPoint
                (THREE.normalize
                   (THREE.crossVectors lastPoint
                      (THREE.subVectors lastPoint secondLastPoint)))
                (THREE.length lastPoint))
             (seq 1 FUTURE_POINTS).
Proof.
  intros Hge. unfold futurePoints.
  destruct (Nat.leb_spec 2 (List.length values)) as [_|Hlt]; [|lia].
  destruct (nth_error values (List.length values - 1)) as [l|] eqn:Hl.
  2:{ apply nth_error_None in Hl. lia. }
  destruct (nth_error values (List.length values - 2)) as [s|] eqn:Hs.
  2:{ apply nth_error_None in Hs. lia. }
  exists l, s. repeat split.
Qed.

Lemma futurePoints_length (values : list (Vector3 num)) :
  2 <= List.length values ->
  List.length (futurePoints values) = FUTURE_POINTS.
Proof.
  intros Hge.
  destruct (futurePoints_long values Hge) as (l & s & _ & _ & Heq).
  rewrite Heq, length_map, length_seq. reflexivity.
Qed.

(** The shape of the arc after an accepted update, on any numbers: empty
    below two valid points, [FUTURE_POINTS] points from two on, each the
    rotated last point rescaled by the last point's length. *)
Lemma future_arc_shape (st : Globe.State num) (position : Ref)
    (p : Vector3 num) :
  nth_error (heap st) position = Some p ->
  invalidPosition p = false ->
  let st' := updateOrbitLine st position in
  let valid := filter (validPoint (heap st')) (orbitPoints st') in
  pastLine st' = validValues (heap st') (orbitPoints st')
  /\ futureLine st' = futurePoints (pastLine st')
  /\ List.length (pastLine st') = List.length valid
  /\ (List.length valid < 2 -> futureLine st' = [])
  /\ (2 <= List.length valid ->
      List.length (futureLine st') = FUTURE_POINTS).
Proof.
  intros Hp Hok st' valid. unfold valid, st'.
  rewrite (updateOrbitLine_accepted st position Hp Hok).
  cbn [heap orbitPoints pastLine futureLine].
  split; [reflexivity|]. split; [reflexivity|].
  split; [apply validValues_length|].
  rewrite <- validValues_length. split.
  - apply futurePoints_short.
  - apply futurePoints_length.
Qed.

End FutureArcFacts.

(** ** Geometry in exact arithmetic *)

Section RealGeometry.
Import Globe.
Local Open Scope R_scope.

Lemma length_norm2 (v : Vector3 R) : THREE.length v = R_sqrt.sqrt (norm2 v).
Proof. reflexivity. Qed.

Lemma norm2_nonneg (v : Vector3 R) : 0 <= norm2 v.
Proof. unfold norm2. nra. Qed.

Lemma length_nonneg (v : Vector3 R) : 0 <= THREE.length v.
Proof. rewrite length_norm2. apply sqrt_pos. Qed.

Lemma length_sqr (v : Vector3 R) :
  THREE.length v * THREE.length v = norm2 v.
Proof. rewrite length_norm2. apply sqrt_sqrt, norm2_nonneg. Qed.

Lemma length_nonzero (v : Vector3 R) : norm2 v <> 0 -> THREE.length v <> 0.
Proof.
  intros Hv Hl. apply Hv. rewrite <- length_sqr, Hl. ring.
Qed.

Lemma norm2_origin (v : Vector3 R) : norm2 v = 0 -> v = origin.
Proof.
  destruct v as [a b c]. unfold norm2, origin. simpl. intros Hv.
  assert (a = 0) by nra. assert (b = 0) by nra. assert (c = 0) by nra.
  subst. reflexivity.
Qed.

Lemma orElse_nonzero (a b : R) : a <> 0 -> orElse a b = a.
Proof.
  intros Ha. unfold orElse. simpl. destruct (Req_dec_T a 0); congruence.
Qed.

Lemma norm2_multiplyScalar (v : Vector3 R) (s : R) :
  norm2 (THREE.multiplyScalar v s) = norm2 v * (s * s).
Proof. unfold norm2, THREE.multiplyScalar. simpl. ring. Qed.

Lemma normalize_nonzero (v : Vector3 R) :
  norm2 v <> 0 ->
  THREE.normalize v = THREE.multiplyScalar v (1 / THREE.length v).
Proof.
  intros Hv. unfold THREE.normalize, THREE.divideScalar.
  rewrite orElse_nonzero by (apply length_nonzero, Hv). reflexivity.
Qed.

Lemma norm2_normalize (v : Vector3 R) :
  norm2 v <> 0 -> norm2 (THREE.normalize v) = 1.
Proof.
  intros Hv. rewrite normalize_nonzero, norm2_multiplyScalar by exact Hv.
  rewrite <- (length_sqr v). field. apply length_nonzero, Hv.
Qed.

(** A rotation about a unit axis keeps the norm. *)
Lemma norm2_rotation (axis v : Vector3 R) (angle : R) :
  norm2 axis = 1 ->
  norm2 (THREE.applyMatrix4 v (THREE.makeRotationAxis axis angle))
  = norm2 v.
Proof.
  destruct axis as [a b c], v as [vx vy vz].
  unfold norm2, THREE.applyMatrix4, THREE.makeRotationAxis. simpl.
  intros Haxis.
  pose proof (sin2_cos2 angle) as Htrig. unfold Rsqr in Htrig.
  set (s := Rtrigo_def.sin angle) in *.
  set (k := Rtrigo_def.cos angle) in *.
  replace (1 / (0 * vx + 0 * vy + 0 * vz + 1)) with 1 by (field; lra).
  nsatz.
Qed.

(** Rescaling a normalised non-zero vector to a length [r >= 0]. *)
Lemma length_rescaled (v : Vector3 R) (r : R) :
  norm2 v <> 0 -> 0 <= r ->
  THREE.length (THREE.multiplyScalar (THREE.normalize v) r) = r.
Proof.
  intros Hv Hr.
  rewrite length_norm2, norm2_multiplyScalar, norm2_normalize by exact Hv.
  rewrite Rmult_1_l. apply sqrt_square, Hr.
Qed.

Lemma futurePoint_length (lastPoint normal : Vector3 R) (i : nat) :
  norm2 normal = 1 -> norm2 lastPoint <> 0 ->
  THREE.length (futurePoint lastPoint normal (THREE.length lastPoint) i)
  = THREE.length lastPoint.
Proof.
  intros Hn Hl. unfold futurePoint. apply length_rescaled.
  - rewrite clone_eq, norm2_rotation by exact Hn. exact Hl.
  - apply length_nonneg.
Qed.

Lemma cross_nonzero_last (l v : Vector3 R) :
  THREE.crossVectors l v <> origin -> norm2 l <> 0.
Proof.
  intros Hc Hl. apply Hc. apply norm2_origin in Hl. subst l.
  unfold THREE.crossVectors, origin. simpl. f_equal; ring.
Qed.

(** With a proper orbital plane every future point keeps the distance of
    the last point from the origin. *)
Lemma futurePoints_radius (values : list (Vector3 R))
    (lastPoint secondLastPoint : Vector3 R) :
  nth_error values (List.length values - 1) = Some lastPoint ->
  nth_error values (List.length values - 2) = Some secondLastPoint ->
  THREE.crossVectors lastPoint (THREE.subVectors lastPoint secondLastPoint)
    <> origin ->
  Forall (fun q => THREE.length q = THREE.length lastPoint)
         (futurePoints values).
Proof.
  intros Hl Hs Hcross.
  destruct (Nat.leb_spec 2 (List.length values)) as [Hge|Hlt].
  - destruct (futurePoints_long values Hge) as (l & s & Hl' & Hs' & Heq).
    rewrite Hl in Hl'. rewrite Hs in Hs'.
    injection Hl' as <-. injection Hs' as <-.
    rewrite Heq. apply Forall_forall. intros q Hq.
    apply in_map_iff in Hq. destruct Hq as (i & <- & _).
    apply futurePoint_length.
    + apply norm2_normalize. intros Hz. apply Hcross, norm2_origin, Hz.
    + apply (cross_nonzero_last Hcross).
  - rewrite futurePoints_short by exact Hlt. constructor.
Qed.

End RealGeometry.

Section RealProjection.
Import Globe.
Local Open Scope R_scope.

Lemma radius_R : Globe.radius = 5.2.
Proof. unfold Globe.radius, decimal. simpl. lra. Qed.

Lemma norm2_newPosition (position : ISSPosition R) :
  norm2 (newPosition position) = Globe.radius * Globe.radius.
Proof.
  unfold norm2, newPosition. simpl.
  set (phi := (90 - Types.latitude position) * (PI / 180)).
  set (theta := (Types.longitude position + 180) * (PI / 180)).
  pose proof (sin2_cos2 phi) as Hphi.
  pose proof (sin2_cos2 theta) as Htheta.
  unfold Rsqr in Hphi, Htheta.
  set (sp := Rtrigo_def.sin phi) in *. set (cp := Rtrigo_def.cos phi) in *.
  set (st := Rtrigo_def.sin theta) in *.
  set (ct := Rtrigo_def.cos theta) in *.
  nsatz.
Qed.

Lemma length_newPosition (position : ISSPosition R) :
  THREE.length (newPosition position) = Globe.radius.
Proof.
  rewrite length_norm2, norm2_newPosition.
  apply sqrt_square. rewrite radius_R. lra.
Qed.

(** C6. For every latitude in [-90, 90] and longitude in [-180, 180] the
    projected point lies at distance [radius] (5.2) from the origin.  The
    statement is about the projection computed in exact arithmetic, where
    the distance is the radius itself; the tolerance of the statement is the
    rounding of the binary64 run. *)
Theorem projection_on_sphere (position : ISSPosition R) :
  -90 <= Types.latitude position <= 90 ->
  -180 <= Types.longitude position <= 180 ->
  THREE.length (newPosition position) = Globe.radius
  /\ Globe.radius = 5.2.
Proof.
  intros _ _. split; [apply length_newPosition|apply radius_R].
Qed.

(** In exact arithmetic, longitude -180 and longitude 180 give the same
    point: after the +180 offset the two angles are 0 and a full turn. *)
Lemma antimeridian_exact (alt vel alt' vel' : R) :
  newPosition (mkISSPosition 0 (-180) alt vel)
  = newPosition (mkISSPosition 0 180 alt' vel').
Proof.
  unfold newPosition. simpl.
  replace ((-180 + 180) * (PI / 180)) with 0 by field.
  replace ((180 + 180) * (PI / 180)) with (2 * PI) by field.
  rewrite sin_0, cos_0, sin_2PI, cos_2PI. reflexivity.
Qed.

End RealProjection.

Section RealFutureArc.
Import Globe.
Local Open Scope R_scope.

(** Exact arithmetic has no NaN: every point is accepted. *)
Lemma invalidPosition_R (p : Vector3 R) : invalidPosition p = false.
Proof. reflexivity. Qed.

Lemma normalize_origin :
  THREE.normalize (Globe.origin (num := R)) = Globe.origin.
Proof.
  unfold THREE.normalize, THREE.divideScalar, THREE.multiplyScalar, orElse.
  assert (Hlen : THREE.length (Globe.origin (num := R)) = 0%R).
  { rewrite length_norm2. unfold norm2, Globe.origin. simpl.
    replace (0 * 0 + 0 * 0 + 0 * 0)%R with 0%R by ring. apply sqrt_0. }
  rewrite Hlen. simpl. destruct (Req_dec_T 0 0) as [_|Hne]; [|congruence].
  unfold Globe.origin. simpl. f_equal; field.
Qed.

Lemma length_scaled_by_zero (v : Vector3 R) :
  THREE.length (THREE.multiplyScalar v 0) = 0.
Proof.
  rewrite length_norm2, norm2_multiplyScalar.
  replace (norm2 v * (0 * 0)) with 0 by ring. apply sqrt_0.
Qed.

Lemma length_zero (v : Vector3 R) : norm2 v = 0 -> THREE.length v = 0.
Proof. intros Hv. rewrite length_norm2, Hv. apply sqrt_0. Qed.

(** About the zero axis [makeRotationAxis] gives [cos angle] times the
    identity. *)
Lemma rotation_about_origin (v : Vector3 R) (angle : R) :
  THREE.applyMatrix4 v (THREE.makeRotationAxis Globe.origin angle)
  = THREE.multiplyScalar v (Rtrigo_def.cos angle).
Proof.
  destruct v as [a b c].
  unfold THREE.applyMatrix4, THREE.makeRotationAxis, THREE.multiplyScalar,
    Globe.origin.
  simpl. f_equal; field.
Qed.

(** The angles of the arc stay below a quarter turn when [Math.PI] is
    below pi, so their cosine is positive. *)
Lemma arc_angle_cos (P : R) (i : nat) :
  0 < P < PI ->
  (1 <= i <= FUTURE_POINTS)%nat ->
  0 < Rtrigo_def.cos
        (IZR (Z.of_nat i) / IZR (Z.of_nat FUTURE_POINTS) * P / 2).
Proof.
  intros [Hpos Hbelow] [Hlo Hhi].
  assert (Hi : 0 < IZR (Z.of_nat i)) by (apply IZR_lt; lia).
  assert (Hn : IZR (Z.of_nat i) <= IZR (Z.of_nat FUTURE_POINTS))
    by (apply IZR_le; lia).
  assert (Hd : 0 < IZR (Z.of_nat FUTURE_POINTS))
    by (apply IZR_lt; unfold FUTURE_POINTS; lia).
  set (n := IZR (Z.of_nat i)) in *.
  set (d := IZR (Z.of_nat FUTURE_POINTS)) in *.
  assert (Hq : 0 < n / d <= 1).
  { split.
    - apply Rdiv_lt_0_compat; assumption.
    - apply (Rmult_le_reg_r d); [exact Hd|].
      unfold Rdiv. rewrite Rmult_assoc, Rinv_l by lra. lra. }
  apply cos_gt_0; nra.
Qed.

(** A future point keeps the length of the last point: about a unit
    normal the rotation keeps the norm; about the zero vector, which
    [normalize] returns for a degenerate plane, the point is scaled by a
    positive cosine and rescaled to the same length. *)
Lemma futurePoint_length_below (P : R) (lastPoint normal : Vector3 R)
    (i : nat) :
  0 < P < PI ->
  (1 <= i <= FUTURE_POINTS)%nat ->
  norm2 normal = 1 \/ normal = Globe.origin ->
  THREE.length
    (@futurePoint R RNumber (RMathWith P) lastPoint normal
       (THREE.length lastPoint) i)
  = THREE.length lastPoint.
Proof.
  intros HP Hi Hnormal. unfold futurePoint. rewrite clone_eq.
  change (@Math_PI R (RMathWith P)) with P.
  change (ofZ (Z.of_nat i) / ofZ (Z.of_nat FUTURE_POINTS) * P / ofZ 2)%js
    with (IZR (Z.of_nat i) / IZR (Z.of_nat FUTURE_POINTS) * P / 2).
  set (angle := IZR (Z.of_nat i) / IZR (Z.of_nat FUTURE_POINTS) * P / 2).
  change (@THREE.makeRotationAxis R RNumber (RMathWith P) normal angle)
    with (@THREE.makeRotationAxis R RNumber RMath normal angle).
  destruct (Req_dec (norm2 lastPoint) 0) as [Hzero|Hlast].
  - rewrite (length_zero Hzero). apply length_scaled_by_zero.
  - apply length_rescaled; [|apply length_nonneg].
    destruct Hnormal as [Hunit| ->].
    + rewrite norm2_rotation by exact Hunit. exact Hlast.
    + rewrite rotation_about_origin, norm2_multiplyScalar.
      pose proof (arc_angle_cos HP Hi) as Hcos. fold angle in Hcos.
      intros Hprod. apply Rmult_integral in Hprod.
      destruct Hprod as [Hprod|Hprod]; [contradiction|nra].
Qed.

Lemma futurePoints_radius_below (P : R) (values : list (Vector3 R))
    (lastPoint : Vector3 R) :
  0 < P < PI ->
  nth_error values (List.length values - 1) = Some lastPoint ->
  Forall (fun q => THREE.length q = THREE.length lastPoint)
         (@futurePoints R RNumber (RMathWith P) values).
Proof.
  intros HP Hl.
  destruct (Nat.leb_spec 2 (List.length values)) as [Hge|Hlt].
  - destruct (@futurePoints_long R RNumber (RMathWith P) values Hge)
      as (l & s & Hl' & _ & Heq).
    rewrite Hl in Hl'. injection Hl' as <-.
    rewrite Heq. apply Forall_forall. intros q Hq.
    apply in_map_iff in Hq. destruct Hq as (i & <- & Hi).
    apply in_seq in Hi.
    apply futurePoint_length_below;
      [exact HP|unfold FUTURE_POINTS in *; lia|].
    set (c := THREE.crossVectors lastPoint (THREE.subVectors lastPoint s)).
    destruct (Req_dec (norm2 c) 0) as [Hzero|Hproper].
    + right. rewrite (norm2_origin Hzero). apply normalize_origin.
    + left. apply norm2_normalize, Hproper.
  - rewrite (@futurePoints_short R RNumber (RMathWith P)) by exact Hlt.
    constructor.
Qed.

(** C2, as the code has it. After an accepted update, on any numbers: with
    fewer than two valid points in the buffer the future arc is empty, and
    with two or more it has exactly [FUTURE_POINTS] (200) points, the point
    of index [i] being the last past point rotated by
    [(i / 200) * Math.PI / 2] about the normalised cross product of the
    last point and the velocity, then normalised and scaled by the last
    point's length.  Evaluated in exact arithmetic, with [Math.PI] any
    number between 0 and pi, as the binary64 constant is, each of these
    points is at the distance of the last past point from the origin, for
    every buffer, the degenerate plane included.  On binary64 the
    equality can fail by rounding. *)
Theorem future_arc_shape_and_radius :
  (forall (num : Type) (N : JSNumber num) (M : JSMath num)
          (st : Globe.State num) (position : Ref) (p : Vector3 num),
      nth_error (heap st) position = Some p ->
      invalidPosition p = false ->
      let st' := updateOrbitLine st position in
      let valid := filter (validPoint (heap st')) (orbitPoints st') in
      (List.length valid < 2 -> futureLine st' = [])
      /\ (2 <= List.length valid ->
          List.length (futureLine st') = FUTURE_POINTS
          /\ exists lastPoint secondLastPoint : Vector3 num,
               nth_error (pastLine st') (List.length (pastLine st') - 1)
               = Some lastPoint
               /\ nth_error (pastLine st') (List.length (pastLine st') - 2)
                  = Some secondLastPoint
               /\ futureLine st'
                  = map (fun i =>
                           THREE.multiplyScalar
                             (THREE.normalize
                                (THREE.applyMatrix4 (THREE.clone lastPoint)
                                   (THREE.makeRotationAxis
                                      (THREE.normalize
                                         (THREE.crossVectors lastPoint
                                            (THREE.subVectors lastPoint
                                               secondLastPoint)))
                                      (ofZ (Z.of_nat i)
                                       / ofZ (Z.of_nat FUTURE_POINTS)
                                       * Math_PI / ofZ 2)%js)))
                             (THREE.length lastPoint))
                        (seq 1 FUTURE_POINTS)))%nat
  /\ (forall (P : R) (st : Globe.State R) (position : Ref)
             (p lastPoint : Vector3 R),
      0 < P < PI ->
      nth_error (heap st) position = Some p ->
      let st' := @updateOrbitLine R RNumber (RMathWith P) st position in
      let valid := filter (validPoint (heap st')) (orbitPoints st') in
      (2 <= List.length valid)%nat ->
      nth_error (pastLine st') (List.length (pastLine st') - 1)
      = Some lastPoint ->
      List.length (futureLine st') = FUTURE_POINTS
      /\ Forall (fun q => THREE.length q = THREE.length lastPoint)
                (futureLine st')).
Proof.
  split.
  - intros num N M st position p Hp Hok st' valid.
    destruct (future_arc_shape st position Hp Hok)
      as (_ & Hfuture & Hlen & Hshort & Hlong).
    fold st' in Hfuture, Hlen, Hshort, Hlong.
    split; [exact Hshort|]. intros Hge. split; [apply Hlong, Hge|].
    assert (Hpast : (2 <= List.length (pastLine st'))%nat)
      by (rewrite Hlen; exact Hge).
    destruct (futurePoints_long (pastLine st') Hpast)
      as (l & s & Hl & Hs & Heq).
    exists l, s. split; [exact Hl|]. split; [exact Hs|].
    rewrite Hfuture. exact Heq.
  - intros P st position p lastPoint HP Hp st' valid Hge Hl.
    destruct (@future_arc_shape R RNumber (RMathWith P) st position p Hp
                (invalidPosition_R p))
      as (_ & Hfuture & _ & _ & Hlong).
    fold st' in Hfuture, Hlong.
    split; [apply Hlong, Hge|].
    rewrite Hfuture. apply futurePoints_radius_below; assumption.
Qed.

End RealFutureArc.

(** ** Binary64: NaN and the infinities *)

Section FloatFacts.
Local Open Scope float_scope.

Lemma float_mul_nan_l (a : float) : nan * a = nan.
Proof.
  apply Prim2SF_inj. rewrite mul_spec.
  change (Prim2SF nan) with S754_nan. reflexivity.
Qed.

Lemma float_mul_nan_r (a : float) : a * nan = nan.
Proof.
  apply Prim2SF_inj. rewrite mul_spec.
  change (Prim2SF nan) with S754_nan.
  destruct (Prim2SF a); reflexivity.
Qed.

Lemma SFeqb_refl_finite (s : bool) (m : positive) (e : Z) :
  SFeqb (S754_finite s m e) (S754_finite s m e) = true.
Proof.
  unfold SFeqb, SFcompare.
  destruct s; rewrite Z.compare_refl, Pos.compare_cont_refl; reflexivity.
Qed.

(** There is one NaN. *)
Lemma is_nan_eq (a : float) : is_nan a = true -> a = nan.
Proof.
  unfold is_nan. rewrite eqb_spec. intros Hnan.
  apply Prim2SF_inj. change (Prim2SF nan) with S754_nan.
  destruct (Prim2SF a) as [s|s| |s m e]; try reflexivity.
  - destruct s; discriminate Hnan.
  - destruct s; discriminate Hnan.
  - rewrite SFeqb_refl_finite in Hnan. discriminate Hnan.
Qed.

Lemma is_infinity_eq (a : float) :
  is_infinity a = true -> a = infinity \/ a = neg_infinity.
Proof.
  unfold is_infinity. rewrite eqb_spec, abs_spec.
  change (Prim2SF infinity) with (S754_infinity false). intros Hinf.
  destruct (Prim2SF a) as [s|s| |s m e] eqn:Ha; try discriminate Hinf.
  destruct s; [right|left]; apply Prim2SF_inj; rewrite Ha; reflexivity.
Qed.

Lemma nonfinite_cases (a : float) :
  is_finite a = false -> a = nan \/ a = infinity \/ a = neg_infinity.
Proof.
  unfold is_finite. intros Hfin. apply negb_false_iff in Hfin.
  apply orb_true_iff in Hfin. destruct Hfin as [Hnan|Hinf].
  - left. apply is_nan_eq, Hnan.
  - right. apply is_infinity_eq, Hinf.
Qed.

End FloatFacts.

(** *** Products of bounded numbers do not overflow

    [Prim2SF] maps a binary64 number to its specification, on which
    multiplication is [SFmul]: the exact product rounded by
    [binary_round_aux].  The exponent of the result is bounded by that of
    the exact product, so a product of numbers with small exponents is
    finite. *)

Section RoundingBounds.
Local Open Scope Z_scope.

Lemma digits2_pos_log2 (p : positive) :
  Zpos (digits2_pos p) = Z.log2 (Zpos p) + 1.
Proof.
  induction p as [p IH|p IH|]; [| |reflexivity].
  - cbn [digits2_pos]. rewrite Pos2Z.inj_succ, IH.
    change (Zpos p~1) with (2 * Zpos p + 1).
    rewrite (Z.log2_succ_double (Zpos p)) by lia. lia.
  - cbn [digits2_pos]. rewrite Pos2Z.inj_succ, IH.
    change (Zpos p~0) with (2 * Zpos p).
    rewrite (Z.log2_double (Zpos p)) by lia. lia.
Qed.

Lemma Zdigits2_log2 (m : Z) : 0 < m -> Zdigits2 m = Z.log2 m + 1.
Proof.
  destruct m as [|p|p]; try lia. intros _. apply digits2_pos_log2.
Qed.

Lemma Zdigits2_nonneg (m : Z) : 0 <= Zdigits2 m.
Proof. destruct m; simpl; lia. Qed.

Lemma Zdigits2_le (a b : Z) : 0 <= a <= b -> Zdigits2 a <= Zdigits2 b.
Proof.
  intros [Ha Hab]. destruct (Z.eq_dec a 0) as [->|Hne].
  - apply Zdigits2_nonneg.
  - rewrite !Zdigits2_log2 by lia.
    pose proof (Z.log2_le_mono a b Hab). lia.
Qed.

Lemma Zdigits2_succ (m : Z) : 0 <= m -> Zdigits2 (m + 1) <= Zdigits2 m + 1.
Proof.
  intros Hm. destruct (Z.eq_dec m 0) as [->|Hne]; [simpl; lia|].
  rewrite !Zdigits2_log2 by lia.
  pose proof (Z.log2_succ_le m). unfold Z.succ in *. lia.
Qed.

Lemma Zdigits2_mul (a b : positive) :
  Zdigits2 (Zpos (a * b))
  <= Zpos (digits2_pos a) + Zpos (digits2_pos b).
Proof.
  rewrite Zdigits2_log2, !digits2_pos_log2 by lia.
  rewrite Pos2Z.inj_mul.
  pose proof (Z.log2_mul_above (Zpos a) (Zpos b)). lia.
Qed.

Lemma iter_pos_invariant (A : Type) (f : A -> A) (P : A -> Prop) :
  (forall x, P x -> P (f x)) ->
  forall (p : positive) (x : A), P x -> P (iter_pos f p x).
Proof.
  intros Hf. induction p as [p IH|p IH|]; intros x Hx; simpl.
  - apply IH, IH, Hf, Hx.
  - apply IH, IH, Hx.
  - apply Hf, Hx.
Qed.

(** A right shift keeps a mantissa between 0 and what it was. *)
Lemma shr_1_bounds (M : Z) (mrs : shr_record) :
  0 <= shr_m mrs <= M -> 0 <= shr_m (shr_1 mrs) <= M.
Proof.
  destruct mrs as [m r s]. simpl.
  destruct m as [|[p|p|]|[p|p|]]; simpl; lia.
Qed.

Lemma shr_fexp_bounds (prec emax m e : Z) :
  0 <= m ->
  let r := shr_fexp prec emax m e loc_Exact in
  0 <= shr_m (fst r) <= m
  /\ snd r = Z.max e (fexp prec emax (Zdigits2 m + e)).
Proof.
  intros Hm. unfold shr_fexp, shr. cbn [shr_record_of_loc].
  destruct (fexp prec emax (Zdigits2 m + e) - e) as [|n|n] eqn:Hn;
    cbn [fst snd shr_m].
  - split; lia.
  - split; [|lia].
    apply (iter_pos_invariant shr_1 (fun x => 0 <= shr_m x <= m)
             (@shr_1_bounds m)).
    simpl. lia.
  - split; lia.
Qed.

Lemma round_nearest_even_bounds (mx : Z) (l : location) :
  mx <= round_nearest_even mx l <= mx + 1.
Proof.
  unfold round_nearest_even.
  destruct l as [|[ | | ]]; try lia. destruct (Z.even mx); lia.
Qed.

(** Rounding an exact value [m * 2^e] of at most 106 digits: the result
    is a zero or finite, with exponent at most [e + 107]. *)
Lemma binary_round_aux_small (s : bool) (m e : Z) :
  0 < m -> Zdigits2 m <= 106 -> e <= 800 ->
  match binary_round_aux 53 1024 s m e loc_Exact with
  | S754_zero _ => True
  | S754_finite _ _ e2 => e2 <= Z.max (e + 107) (-1020)
  | _ => False
  end.
Proof.
  intros Hm Hd He. unfold binary_round_aux.
  pose proof (@shr_fexp_bounds 53 1024 m e (Z.lt_le_incl _ _ Hm)) as H1.
  destruct (shr_fexp 53 1024 m e loc_Exact) as [mrs1 e1].
  cbn [fst snd] in H1. cbv zeta in H1. destruct H1 as [Hm1 He1].
  pose proof (round_nearest_even_bounds (shr_m mrs1)
                (loc_of_shr_record mrs1)) as Hr.
  set (mr := round_nearest_even (shr_m mrs1) (loc_of_shr_record mrs1)) in *.
  assert (Hmr : 0 <= mr) by lia.
  pose proof (@shr_fexp_bounds 53 1024 mr e1 Hmr) as H2.
  destruct (shr_fexp 53 1024 mr e1 loc_Exact) as [mrs2 e2].
  cbn [fst snd] in H2. cbv zeta in H2. destruct H2 as [Hm2 He2].
  assert (Hdr : Zdigits2 mr <= 107).
  { pose proof (@Zdigits2_le mr (m + 1)).
    pose proof (@Zdigits2_succ m). lia. }
  pose proof (Zdigits2_nonneg m) as Hd0.
  pose proof (Zdigits2_nonneg mr) as Hdr0.
  unfold fexp, emin in He1, He2.
  assert (Hbound : e2 <= Z.max (e + 107) (-1020)) by lia.
  destruct (shr_m mrs2) as [|p|p] eqn:Hp; [exact I| |lia].
  destruct (Z.leb_spec e2 (1024 - 53)); [exact Hbound|lia].
Qed.

(** A canonical mantissa has at most 53 digits. *)
Lemma valid_digits (s : bool) (m : positive) (e : Z) :
  SpecFloat.valid_binary 53 1024 (S754_finite s m e) = true ->
  Zpos (digits2_pos m) <= 53.
Proof.
  simpl. unfold bounded, canonical_mantissa, fexp, emin.
  intros Hv. apply andb_prop in Hv. destruct Hv as [Hc _].
  apply Z.eqb_eq in Hc. lia.
Qed.

End RoundingBounds.

Section ExponentBounds.
Local Open Scope float_scope.

Lemma Prim2SF_valid64 (a : float) :
  SpecFloat.valid_binary 53 1024 (Prim2SF a) = true.
Proof. exact (Prim2SF_valid a). Qed.

Lemma exponentBelow_mul (k1 k2 : Z) (a b : float) :
  exponentBelow k1 a -> exponentBelow k2 b -> (k1 + k2 <= 800)%Z ->
  exponentBelow (Z.max (k1 + k2 + 107) (-1020)) (a * b).
Proof.
  unfold exponentBelow. rewrite mul_spec.
  pose proof (Prim2SF_valid64 a) as Hva.
  pose proof (Prim2SF_valid64 b) as Hvb.
  destruct (Prim2SF a) as [sa|sa| |sa ma ea]; try contradiction;
    destruct (Prim2SF b) as [sb|sb| |sb mb eb]; try contradiction;
    intros Ha Hb Hk; try exact I.
  unfold SF64mul, SFmul, prec, emax.
  apply valid_digits in Hva, Hvb.
  pose proof (Zdigits2_mul ma mb) as Hd.
  assert (Hr := @binary_round_aux_small (xorb sa sb) (Zpos (ma * mb))
                  (ea + eb) eq_refl).
  specialize (Hr ltac:(lia) ltac:(lia)).
  destruct (binary_round_aux 53 1024 (xorb sa sb) (Zpos (ma * mb))
              (ea + eb) loc_Exact) as [s|s| |s m e];
    try exact Hr.
  lia.
Qed.

Lemma exponentBelow_finite (k : Z) (a : float) :
  exponentBelow k a -> is_finite a = true.
Proof.
  unfold exponentBelow, is_finite, is_nan, is_infinity.
  rewrite !eqb_spec, abs_spec.
  change (Prim2SF infinity) with (S754_infinity false).
  destruct (Prim2SF a) as [s|s| |s m e]; try contradiction; intros _.
  - destruct s; reflexivity.
  - unfold SFeqb at 1. unfold SFcompare.
    destruct s; rewrite Z.compare_refl, Pos.compare_cont_refl; reflexivity.
Qed.

(** A number of magnitude at most 1 has exponent at most -52. *)
Lemma exponentBelow_unit (a : float) :
  (abs a <=? 1) = true -> exponentBelow (-52) a.
Proof.
  unfold exponentBelow. rewrite leb_spec, abs_spec.
  change (Prim2SF 1) with (S754_finite false 4503599627370496 (-52)).
  destruct (Prim2SF a) as [s|s| |s m e]; simpl; try discriminate;
    [trivial|].
  unfold SFleb, SFcompare.
  destruct (Z.compare_spec e (-52)); try discriminate; lia.
Qed.

End ExponentBounds.

Section FloatValidation.
Import Globe.
Variables sin cos : float -> float.

(** ECMAScript: [Math.sin] and [Math.cos] of NaN or an infinity are NaN. *)
Hypothesis sin_nonfinite :
  forall a, PrimFloat.is_finite a = false -> PrimFloat.is_nan (sin a) = true.
Hypothesis cos_nonfinite :
  forall a, PrimFloat.is_finite a = false -> PrimFloat.is_nan (cos a) = true.

#[local] Hint Extern 0 (JSMath float) =>
  exact (FloatMath sin cos) : typeclass_instances.

Local Open Scope js_scope.

Lemma phi_nonfinite (lat : float) :
  PrimFloat.is_finite lat = false ->
  PrimFloat.is_finite ((ofZ 90 - lat) * (Math_PI / ofZ 180)) = false.
Proof.
  intros Hlat.
  destruct (nonfinite_cases lat Hlat) as [->|[->| ->]];
    vm_compute; reflexivity.
Qed.

Lemma theta_nonfinite (lon : float) :
  PrimFloat.is_finite lon = false ->
  PrimFloat.is_finite ((lon + ofZ 180) * (Math_PI / ofZ 180)) = false.
Proof.
  intros Hlon.
  destruct (nonfinite_cases lon Hlon) as [->|[->| ->]];
    vm_compute; reflexivity.
Qed.

Lemma newPosition_nonfinite (position : ISSPosition float) :
  PrimFloat.is_finite (Types.latitude position) = false
  \/ PrimFloat.is_finite (Types.longitude position) = false ->
  invalidPosition (newPosition position) = true.
Proof.
  intros Hbad. unfold invalidPosition, newPosition.
  cbn [THREE.x THREE.y THREE.z].
  apply orb_true_iff. left. apply orb_true_iff. left.
  destruct Hbad as [Hlat|Hlon].
  - apply phi_nonfinite, sin_nonfinite, is_nan_eq in Hlat.
    change (Math_sin ((ofZ 90 - Types.latitude position)
                      * (Math_PI / ofZ 180)))
      with (sin ((ofZ 90 - Types.latitude position)
                 * (Math_PI / ofZ 180))).
    rewrite Hlat.
    change (isNaN ((- radius * nan) * Math_cos
              ((Types.longitude position + ofZ 180)
               * (Math_PI / ofZ 180))))
      with (PrimFloat.is_nan
              (PrimFloat.mul (PrimFloat.mul (- radius) nan)
                 (cos ((Types.longitude position + ofZ 180)
                       * (Math_PI / ofZ 180))))).
    rewrite float_mul_nan_r, float_mul_nan_l. reflexivity.
  - apply theta_nonfinite, cos_nonfinite, is_nan_eq in Hlon.
    change (Math_cos ((Types.longitude position + ofZ 180)
                      * (Math_PI / ofZ 180)))
      with (cos ((Types.longitude position + ofZ 180)
                 * (Math_PI / ofZ 180))).
    rewrite Hlon.
    change (isNaN ((- radius * Math_sin
                      ((ofZ 90 - Types.latitude position)
                       * (Math_PI / ofZ 180))) * nan))
      with (PrimFloat.is_nan
              (PrimFloat.mul
                 (- radius * Math_sin
                      ((ofZ 90 - Types.latitude position)
                       * (Math_PI / ofZ 180)))
                 nan)).
    rewrite float_mul_nan_r. reflexivity.
Qed.

(** ... and on the other arguments a number of magnitude at most 1, when
    not NaN. *)
Hypothesis sin_range :
  forall a, PrimFloat.is_nan (sin a) = true
            \/ PrimFloat.leb (PrimFloat.abs (sin a)) 1%float = true.
Hypothesis cos_range :
  forall a, PrimFloat.is_nan (cos a) = true
            \/ PrimFloat.leb (PrimFloat.abs (cos a)) 1%float = true.

Lemma radius_exponent :
  exponentBelow (-50) (Globe.radius (num := float))
  /\ exponentBelow (-50) (PrimFloat.opp (Globe.radius (num := float))).
Proof.
  unfold exponentBelow.
  change (Prim2SF (Globe.radius (num := float)))
    with (S754_finite false 5854679515581645 (-50)).
  change (Prim2SF (PrimFloat.opp (Globe.radius (num := float))))
    with (S754_finite true 5854679515581645 (-50)).
  split; reflexivity.
Qed.

(** The radius times one or two numbers of magnitude at most 1 is
    finite. *)
Lemma scaled_unit_finite (r a : float) :
  exponentBelow (-50) r ->
  PrimFloat.leb (PrimFloat.abs a) 1%float = true ->
  exponentBelow 5 (PrimFloat.mul r a).
Proof.
  intros Hr Ha. apply exponentBelow_unit in Ha.
  exact (@exponentBelow_mul _ _ _ _ Hr Ha ltac:(lia)).
Qed.

Lemma scaled_units_finite (r a b : float) :
  exponentBelow (-50) r ->
  PrimFloat.leb (PrimFloat.abs a) 1%float = true ->
  PrimFloat.leb (PrimFloat.abs b) 1%float = true ->
  PrimFloat.is_finite (PrimFloat.mul (PrimFloat.mul r a) b) = true.
Proof.
  intros Hr Ha Hb. apply exponentBelow_unit in Hb.
  pose proof (@scaled_unit_finite _ _ Hr Ha) as Hra.
  exact (@exponentBelow_finite _ _
           (@exponentBelow_mul _ _ _ _ Hra Hb ltac:(lia))).
Qed.

(** The projection of any position has a NaN coordinate or is finite in
    all three: the [isNaN] guard of [updateISSPosition] lets no infinite
    coordinate through. *)
Lemma newPosition_nan_or_finite (position : ISSPosition float) :
  invalidPosition (newPosition position) = true
  \/ (PrimFloat.is_finite (THREE.x (newPosition position)) = true
      /\ PrimFloat.is_finite (THREE.y (newPosition position)) = true
      /\ PrimFloat.is_finite (THREE.z (newPosition position)) = true).
Proof.
  unfold invalidPosition, newPosition. cbn [THREE.x THREE.y THREE.z].
  set (phi := (ofZ 90 - Types.latitude position) * (Math_PI / ofZ 180)).
  set (theta := (Types.longitude position + ofZ 180)
                * (Math_PI / ofZ 180)).
  change (Math_sin phi) with (sin phi).
  change (Math_cos phi) with (cos phi).
  change (Math_sin theta) with (sin theta).
  change (Math_cos theta) with (cos theta).
  change (@isNaN float FloatNumber) with PrimFloat.is_nan.
  change (@mul float FloatNumber) with PrimFloat.mul.
  change (@neg float FloatNumber) with PrimFloat.opp.
  destruct radius_exponent as [Hr Hr'].
  destruct (sin_range phi) as [Hs|Hs].
  { left. apply is_nan_eq in Hs. rewrite Hs.
    rewrite float_mul_nan_r, float_mul_nan_l. reflexivity. }
  destruct (cos_range theta) as [Hc|Hc].
  { left. apply is_nan_eq in Hc. rewrite Hc.
    rewrite float_mul_nan_r. reflexivity. }
  destruct (cos_range phi) as [Hc'|Hc'].
  { left. apply is_nan_eq in Hc'. rewrite Hc'.
    rewrite float_mul_nan_r. apply orb_true_iff. left.
    apply orb_true_r. }
  destruct (sin_range theta) as [Hs'|Hs'].
  { left. apply is_nan_eq in Hs'. rewrite Hs'.
    rewrite (float_mul_nan_r (PrimFloat.mul radius (sin phi))).
    apply orb_true_r. }
  right. split; [|split].
  - apply scaled_units_finite; assumption.
  - exact (@exponentBelow_finite _ _ (@scaled_unit_finite _ _ Hr Hc')).
  - apply scaled_units_finite; assumption.
Qed.

(** C5. A position whose latitude or longitude is not finite, or whose
    projection has a coordinate that is not finite, is rejected without
    any effect: [updateISSPosition] returns the state it was given, so no
    point is appended and the trail buffer is exactly as before; the
    function has no throwing path.  The guards test [isNaN]; that is
    enough on this path, because a non-finite latitude or longitude makes
    the sine or cosine NaN and a finite one gives coordinates of magnitude
    at most the radius. *)
Theorem invalid_input_leaves_trail (st : Globe.State float)
    (position : ISSPosition float) :
  PrimFloat.is_finite (Types.latitude position) = false
  \/ PrimFloat.is_finite (Types.longitude position) = false
  \/ PrimFloat.is_finite (THREE.x (newPosition position)) = false
  \/ PrimFloat.is_finite (THREE.y (newPosition position)) = false
  \/ PrimFloat.is_finite (THREE.z (newPosition position)) = false ->
  updateISSPosition st position = st
  /\ trailPoints (updateISSPosition st position) = trailPoints st.
Proof.
  intros Hbad.
  assert (Hnan : invalidPosition (newPosition position) = true).
  { destruct Hbad as [Hlat|[Hlon|Hcoord]].
    - apply newPosition_nonfinite. left. exact Hlat.
    - apply newPosition_nonfinite. right. exact Hlon.
    - destruct (newPosition_nan_or_finite position)
        as [Hnan|(Hx & Hy & Hz)]; [exact Hnan|].
      destruct Hcoord as [Hc|[Hc|Hc]]; congruence. }
  assert (Hsame : updateISSPosition st position = st).
  { unfold updateISSPosition. rewrite Hnan.
    destruct (sceneManager st), (issMarker st); reflexivity. }
  split; [exact Hsame|]. rewrite Hsame. reflexivity.
Qed.

End FloatValidation.

(** ** The position service *)

Section ServiceFacts.
Import ISSService.
Context {num : Type} `{JSNumber num}.
Variable parseFloat : string -> num.

(** C8. Every position returned by [getPosition] carries the constants:
    altitude 408 and velocity 7.66, whatever the feed contained. *)
Theorem altitude_velocity_constant (answer : FetchOutcome)
    (position : ISSPosition num) :
  getPosition parseFloat answer = inr position ->
  Types.altitude position = ofZ 408
  /\ Types.velocity position = decimal 766 2.
Proof.
  unfold getPosition. intros Hget.
  destruct answer as [e|ok status body]; [discriminate Hget|].
  destruct (negb ok); [discriminate Hget|].
  destruct body as [e|data]; [discriminate Hget|].
  destruct (Types.iss_position data) as [raw|]; [|discriminate Hget].
  injection Hget as <-. split; reflexivity.
Qed.

(** C9. A successful response whose payload has an [iss_position] is
    delivered to [onUpdate] with latitude and longitude the [parseFloat]
    of the two strings, unchecked: no range test and no NaN test stands
    between [parseFloat] and [onUpdate], so a string that parses to NaN
    reaches [onUpdate] as a NaN coordinate and [onError] is not called. *)
Theorem payload_parsed_unchecked (tracking : bool) (ctl : option nat)
    (count status : nat) (lat lon msg : string) (ts : Z) :
  let payload :=
    mkISSAPIResponse (Some (Types.Raw.mk lat lon)) msg ts in
  let answer := Responded true status (inr payload) in
  let position :=
    mkISSPosition (parseFloat lat) (parseFloat lon)
                  (ofZ 408) (decimal 766 2) in
  getPosition parseFloat answer = inr position
  /\ step parseFloat (mkTracker tracking ctl count AwaitingPosition)
          (Settled answer)
     = (mkTracker tracking ctl count Sleeping, [OnUpdate position])
  /\ (isNaN (parseFloat lat) = true ->
      isNaN (Types.latitude position) = true
      /\ Forall (fun a => isOnError a = false)
                (snd (step parseFloat
                        (mkTracker tracking ctl count AwaitingPosition)
                        (Settled answer)))).
Proof.
  intros payload answer position.
  split; [reflexivity|]. split; [reflexivity|].
  intros Hnan. split; [exact Hnan|].
  repeat constructor.
Qed.

(** *** After cancellation *)





End ServiceFacts.


(** ** The statements at concrete inputs *)

Lemma nanOutsideFinite_nonfinite (f : float -> float) (a : float) :
  PrimFloat.is_finite a = false ->
  PrimFloat.is_nan (nanOutsideFinite f a) = true.
Proof. intros Ha. unfold nanOutsideFinite. rewrite Ha. reflexivity. Qed.

Lemma cross_east_north :
  THREE.crossVectors northR (THREE.subVectors northR eastR) <> Globe.origin.
Proof.
  unfold THREE.crossVectors, THREE.subVectors, Globe.origin, northR, eastR.
  simpl. intros Heq. injection Heq as _ _ Hz. lra.
Qed.

(** The literals of the program on binary64. *)
Lemma float_literals :
  (Globe.radius : float) = 0x1.4cccccccccccdp+2%float
  /\ (decimal 766 2 : float) = 0x1.ea3d70a3d70a4p+2%float
  /\ (ofZ 408 : float) = 408%float.
Proof. repeat split. Qed.

(** The projection of latitude 10, longitude 20 becomes the marker's
    position. *)
Lemma projection_formula_witness :
  Globe.issMarker
    (Globe.updateISSPosition
       (Globe.createOrbitLine [] true (Some Globe.origin))
       (mkISSPosition 10%R 20%R 408%R 7.66%R))
  = Some (Spec.project 10%R 20%R).
Proof.
  exact (proj1
           (proj2 (proj2
              (projection_formula
                 (Globe.createOrbitLine [] true (Some Globe.origin))
                 (mkISSPosition 10%R 20%R 408%R 7.66%R)))
              eq_refl
              (fun none : Some Globe.origin = None =>
                 eq_ind (Some Globe.origin)
                   (fun o => match o with Some _ => True | None => False end)
                   I None none)
              eq_refl)).
Defined.

(** [exactPI] is the value of the binary64 constant. *)
Lemma float_PI_exact :
  Prim2SF float_PI = S754_finite false 7074237752028440 (-51)
  /\ exactPI = (7074237752028440 / 2 ^ 51)%R.
Proof. split; [reflexivity|unfold exactPI; lra]. Qed.

(** [Math.PI] lies below pi: by the series of Machin's formula
    [pi / 4 = 2 * atan (1 / 3) + atan (1 / 7)], cut after 16 terms. *)
Lemma exactPI_below : (0 < exactPI < PI)%R.
Proof.
  split; [unfold exactPI; lra|].
  pose proof (PI_2_3_7_ineq 7) as [Hlow _].
  apply Rlt_le_trans
    with (4 * sum_f_R0 (tg_alt PI_2_3_7_tg) (S (2 * 7)))%R; [|lra].
  clear Hlow. unfold exactPI.
  cbn [Nat.mul Nat.add sum_f_R0].
  unfold tg_alt, PI_2_3_7_tg, Ratan_seq.
  cbn [Nat.mul Nat.add].
  rewrite !INR_IZR_INZ. cbn [Z.of_nat Pos.of_succ_nat Pos.succ].
  lra.
Qed.

(** With the value of [Math.PI], the same position reported twice (the
    degenerate plane): 200 future points, all on the unit sphere. *)
Lemma future_arc_shape_and_radius_witness :
  List.length
    (Globe.futureLine
       (@Globe.updateOrbitLine R RNumber (RMathWith exactPI)
          (@Globe.updateOrbitLine R RNumber (RMathWith exactPI)
             (Globe.createOrbitLine [eastR; eastR] true None) 0) 1))
  = Globe.FUTURE_POINTS
  /\ Forall (fun q => THREE.length q = THREE.length eastR)
       (Globe.futureLine
          (@Globe.updateOrbitLine R RNumber (RMathWith exactPI)
             (@Globe.updateOrbitLine R RNumber (RMathWith exactPI)
                (Globe.createOrbitLine [eastR; eastR] true None) 0) 1)).
Proof.
  exact (proj2 future_arc_shape_and_radius exactPI
           (@Globe.updateOrbitLine R RNumber (RMathWith exactPI)
              (Globe.createOrbitLine [eastR; eastR] true None) 0)
           1 eastR eastR exactPI_below eq_refl (le_n 2) eq_refl).
Defined.

(** The 101st point evicts the first: 99 old points and the new one. *)
Lemma trail_buffer_bounded_fifo_witness :
  Globe.trailPoints
    (Globe.feedAll (Globe.createOrbitLine [] true None)
       (repeat eastR 100 ++ [northR]))
  = map Some (repeat eastR 99 ++ [northR]).
Proof.
  exact (proj1 (proj2 (proj2
           (trail_buffer_bounded_fifo [] true None
              (repeat eastR 100 ++ [northR]))))).
Defined.

Lemma nanOutsideFinite_range (f : float -> float) (a : float) :
  (forall b, PrimFloat.leb (PrimFloat.abs (f b)) 1%float = true) ->
  PrimFloat.is_nan (nanOutsideFinite f a) = true
  \/ PrimFloat.leb (PrimFloat.abs (nanOutsideFinite f a)) 1%float = true.
Proof.
  intros Hf. unfold nanOutsideFinite.
  destruct (PrimFloat.is_finite a); [right; apply Hf|left; reflexivity].
Qed.

(** An infinite latitude: the call gives the state back. *)
Lemma invalid_input_leaves_trail_witness :
  @Globe.updateISSPosition float FloatNumber
     (FloatMath (nanOutsideFinite (fun _ => 0%float))
                (nanOutsideFinite (fun _ => 1%float)))
     (Globe.createOrbitLine [] true (Some Globe.origin))
     (mkISSPosition infinity 0%float 408%float 0x1.ea3d70a3d70a4p+2%float)
  = Globe.createOrbitLine [] true (Some Globe.origin).
Proof.
  exact (proj1
           (invalid_input_leaves_trail
              (nanOutsideFinite (fun _ => 0%float))
              (nanOutsideFinite (fun _ => 1%float))
              (nanOutsideFinite_nonfinite (fun _ => 0%float))
              (nanOutsideFinite_nonfinite (fun _ => 1%float))
              (fun a => nanOutsideFinite_range (fun _ => 0%float) a
                          (fun _ => eq_refl))
              (fun a => nanOutsideFinite_range (fun _ => 1%float) a
                          (fun _ => eq_refl))
              (Globe.createOrbitLine [] true (Some Globe.origin))
              (mkISSPosition infinity 0%float 408%float
                 0x1.ea3d70a3d70a4p+2%float)
              (or_introl eq_refl))).
Defined.

(** Latitude 10, longitude 20 lies on the sphere of radius 5.2. *)
Lemma projection_on_sphere_witness :
  THREE.length (Globe.newPosition (mkISSPosition 10%R 20%R 408%R 7.66%R))
  = Globe.radius
  /\ Globe.radius = 5.2%R.
Proof.
  apply (projection_on_sphere (mkISSPosition 10%R 20%R 408%R 7.66%R));
    simpl; lra.
Defined.

(** A parsed feed answer carries 408 and 7.66. *)
Lemma altitude_velocity_constant_witness :
  Types.altitude
    (mkISSPosition 51.5%float (-0.125)%float (ofZ 408) (decimal 766 2))
  = 408%float
  /\ Types.velocity
       (mkISSPosition 51.5%float (-0.125)%float (ofZ 408) (decimal 766 2))
     = 0x1.ea3d70a3d70a4p+2%float.
Proof.
  exact (altitude_velocity_constant (tableParse sampleTable)
           (sampleAnswer "51.5" "-0.125") eq_refl).
Defined.

(** A latitude string without a numeric prefix reaches [onUpdate] as
    NaN. *)
Lemma payload_parsed_unchecked_witness :
  isNaN (tableParse sampleTable "n/a") = true
  /\ ISSService.getPosition (tableParse sampleTable)
       (sampleAnswer "n/a" "-0.125")
     = inr (mkISSPosition nan (-0.125)%float 408%float
              0x1.ea3d70a3d70a4p+2%float)
  /\ Forall (fun a => ISSService.isOnError a = false)
       (snd (ISSService.step (tableParse sampleTable)
               (ISSService.mkTracker true (Some 0) 1
                  ISSService.AwaitingPosition)
               (ISSService.Settled (sampleAnswer "n/a" "-0.125")))).
Proof.
  split; [reflexivity|]. split.
  - exact (proj1 (payload_parsed_unchecked (tableParse sampleTable)
                    true (Some 0) 1 200 "n/a" "-0.125" "success"
                    1700000000)).
  - exact (proj2 (proj2 (proj2
             (payload_parsed_unchecked (tableParse sampleTable)
                true (Some 0) 1 200 "n/a" "-0.125" "success"
                1700000000)) eq_refl)).
Defined.

(** Overwriting the caller's point after the update: the trail still
    reads the old coordinates. *)
Lemma clone_isolates_trail_witness :
  Globe.trailPoints
    (Globe.mutate
       (Globe.updateOrbitLine (Globe.createOrbitLine [eastR] true None) 0)
       0 northR)
  = [Some eastR].
Proof.
  exact (eq_trans
           (proj1 (clone_isolates_trail
                     (Globe.createOrbitLine [eastR] true None) 0 northR
                     eq_refl (fun contra : In 0 [] => contra)))
           eq_refl).
Defined.

(** * Further properties of the code *)

(** ** [getPosition] and the loop *)

Section ServiceMore.
Import ISSService Polling.
Context {num : Type} `{JSNumber num}.
Variable parseFloat : string -> num.

(** X1. [getPosition] returns a position exactly when the response is ok, its
    body parses and the payload has an [iss_position]; every other answer
    is thrown as an error. *)
Theorem getPosition_succeeds_iff (answer : FetchOutcome) :
  (exists position, getPosition parseFloat answer = inr position)
  <-> (exists status data raw,
         answer = Responded true status (inr data)
         /\ Types.iss_position data = Some raw).
Proof.
  split.
  - intros [position Hget]. unfold getPosition in Hget.
    destruct answer as [e|ok status body]; [discriminate Hget|].
    destruct ok; simpl in Hget; [|discriminate Hget].
    destruct body as [e|data]; [discriminate Hget|].
    destruct (Types.iss_position data) as [raw|] eqn:Hraw;
      [|discriminate Hget].
    exists status, data, raw. split; [reflexivity|exact Hraw].
  - intros (status & data & raw & -> & Hraw). simpl. rewrite Hraw.
    eexists. reflexivity.
Qed.

Lemma rethrow_name (error : Thrown) : name (rethrow error) = "Error"%string.
Proof.
  destruct error as [e|]; simpl; [|reflexivity].
  destruct (String.eqb (name e) "AbortError"); reflexivity.
Qed.

(** X2. Every error [getPosition] throws is a plain [Error] whose message is
    "Request was cancelled", or starts with "Failed to fetch ISS position: ",
    or is the unknown-error text; a response that is not ok is reported with
    its status, whatever its body, because the error thrown inside the
    [try] is caught and wrapped by the function's own [catch]. *)
Theorem getPosition_errors_normalised (answer : FetchOutcome)
    (error : Error) :
  getPosition parseFloat answer = inl error ->
  name error = "Error"%string
  /\ (errorMessage error = "Request was cancelled"%string
      \/ String.prefix "Failed to fetch ISS position: "
           (errorMessage error) = true
      \/ errorMessage error
         = "An unknown error occurred while fetching ISS position"%string)
  /\ (forall status body,
        answer = Responded false status body ->
        errorMessage error
        = String.append "Failed to fetch ISS position: HTTP error! status: "
            (showStatus status)).
Proof.
  intros Hget.
  assert (Hcause : exists cause, error = rethrow cause).
  { unfold getPosition in Hget.
    destruct answer as [e|ok status body].
    - exists e. congruence.
    - destruct (negb ok).
      + eexists (IsError (mkError "Error" _)). injection Hget as <-.
        reflexivity.
      + destruct body as [e|data]; [exists e; congruence|].
        destruct (Types.iss_position data); [discriminate Hget|].
        eexists (IsError (mkError "Error" _)). injection Hget as <-.
        reflexivity. }
  destruct Hcause as [cause ->].
  split; [apply rethrow_name|]. split.
  - destruct cause as [e|]; simpl.
    + destruct (String.eqb (name e) "AbortError"); simpl.
      * left. reflexivity.
      * right. left. destruct (errorMessage e); reflexivity.
    + right. right. reflexivity.
  - intros status body ->. simpl in Hget. injection Hget as Heq.
    rewrite <- Heq. reflexivity.
Qed.

(** X3. Invoking the handle a second time changes nothing and does nothing:
    the flag is already false and the controller already dropped. *)
Theorem cancel_twice (t : Tracker) :
  step parseFloat (fst (step parseFloat t Cancel)) Cancel
  = (fst (step parseFloat t Cancel), []).
Proof. destruct t as [tracking ctl count ph]. reflexivity. Qed.

Lemma run_app (t : Tracker) (es1 es2 : list Event) :
  run parseFloat t (es1 ++ es2)
  = (fst (run parseFloat (fst (run parseFloat t es1)) es2),
     snd (run parseFloat t es1)
     ++ snd (run parseFloat (fst (run parseFloat t es1)) es2)).
Proof.
  revert t. induction es1 as [|e es1 IH]; intros t; simpl.
  - destruct (run parseFloat t es2); reflexivity.
  - destruct (step parseFloat t e) as [t1 a1]. rewrite IH.
    destruct (run parseFloat t1 es1) as [t2 a2]. simpl.
    destruct (run parseFloat t2 es2) as [t3 a3]. simpl.
    rewrite app_assoc. reflexivity.
Qed.

Lemma run_rounds (answers : list FetchOutcome) :
  forall c : nat,
    run parseFloat (mkTracker true (Some c) (S c) AwaitingPosition)
        (polling answers)
    = (mkTracker true (Some (c + List.length answers))
                 (S (c + List.length answers)) AwaitingPosition,
       rounds parseFloat c answers).
Proof.
  induction answers as [|answer rest IH]; intros c.
  - simpl. rewrite Nat.add_0_r. reflexivity.
  - cbn [polling flat_map app run rounds List.length]. fold (polling rest).
    replace (c + S (List.length rest)) with (S c + List.length rest) by lia.
    unfold step at 1. cbn [phase isTracking controller created].
    unfold callbackOf.
    destruct (getPosition parseFloat answer) as [error|position];
      cbn [step phase loopTest isTracking beginGetPosition abortController
           controller created run];
      rewrite (IH (S c)); reflexivity.
Qed.

Lemma run_roundsWith (rounds : list (FetchOutcome * Callbacks.Outcome)) :
  forall c : nat,
    Callbacks.run parseFloat
      (mkTracker true (Some c) (S c) AwaitingPosition)
      (Callbacks.pollingWith rounds)
    = (mkTracker true (Some (c + List.length rounds))
                 (S (c + List.length rounds)) AwaitingPosition,
       Callbacks.roundsWith parseFloat c rounds).
Proof.
  induction rounds as [|[answer update] rest IH]; intros c.
  - simpl. rewrite Nat.add_0_r. reflexivity.
  - cbn [Callbacks.pollingWith flat_map app Callbacks.run
         Callbacks.roundsWith List.length fst snd].
    fold (Callbacks.pollingWith rest).
    replace (c + S (List.length rest)) with (S c + List.length rest) by lia.
    unfold Callbacks.step at 1. cbn [phase isTracking controller created].
    unfold Callbacks.callsOf. cbn [fst snd].
    destruct (getPosition parseFloat answer) as [error|position];
      [|destruct update as [thrown|]];
      cbn [Callbacks.report fst snd Callbacks.step phase loopTest isTracking
           beginGetPosition abortController controller created
           Callbacks.run app];
      rewrite (IH (S c)); reflexivity.
Qed.

(** X4. Polling never gives up as long as [onError] returns: whatever mix
    of positions and failures the answers are, and even when [onUpdate]
    throws, [startTracking] issues the first request and then, answer by
    answer, makes the callbacks of the answer ([onUpdate], followed by
    [onError] with the exception when [onUpdate] threw; [onError] alone for
    a failure), aborts the controller of the answered request and issues
    the next request; after [n] answers the loop is waiting for answer
    [n + 1]. *)
Theorem polling_never_gives_up (count : nat)
    (rounds : list (FetchOutcome * Callbacks.Outcome)) :
  startTracking (num := num) None count
  = (mkTracker true (Some count) (S count) AwaitingPosition, [Request count])
  /\ Callbacks.run parseFloat (fst (startTracking (num := num) None count))
       (Callbacks.pollingWith rounds)
     = (mkTracker true (Some (count + List.length rounds))
                  (S (count + List.length rounds)) AwaitingPosition,
        Callbacks.roundsWith parseFloat count rounds)
  /\ Forall (fun r =>
               1 <= List.length (filter isCallback
                                   (Callbacks.callsOf parseFloat r)) <= 2)
            rounds.
Proof.
  split; [reflexivity|]. split.
  - change (fst (startTracking (num := num) None count))
      with (mkTracker true (Some count) (S count) AwaitingPosition).
    apply run_roundsWith.
  - apply Forall_forall. intros [answer update] _.
    unfold Callbacks.callsOf. cbn [fst snd].
    destruct (getPosition parseFloat answer) as [error|position];
      [|destruct update]; simpl; lia.
Qed.

(** An exception of [onError] ends the loop for good. *)
Lemma run_finished (es : list Callbacks.LoopEvent) :
  forall t : Tracker,
    phase t = Finished ->
    phase (fst (Callbacks.run parseFloat t es)) = Finished
    /\ Forall (fun a => isRequest a = false /\ isCallback a = false)
              (snd (Callbacks.run parseFloat t es)).
Proof.
  induction es as [|e es IH]; intros t Hdone.
  - split; [exact Hdone|constructor].
  - cbn [Callbacks.run].
    assert (Hstep : phase (fst (Callbacks.step parseFloat t e)) = Finished
                    /\ Forall (fun a => isRequest a = false
                                        /\ isCallback a = false)
                              (snd (Callbacks.step parseFloat t e))).
    { destruct t as [tracking ctl count ph]. simpl in Hdone. subst ph.
      destruct e as [answer update error| |]; simpl;
        try (split; [reflexivity|constructor]).
      destruct ctl; simpl; repeat split; repeat constructor. }
    destruct (Callbacks.step parseFloat t e) as [t1 a1].
    destruct Hstep as [Hdone1 Hquiet1]. cbn [fst snd] in *.
    specialize (IH t1 Hdone1).
    destruct (Callbacks.run parseFloat t1 es) as [t2 a2].
    cbn [fst snd] in *. destruct IH as [Hdone2 Hquiet2].
    split; [exact Hdone2|]. apply Forall_app. split; assumption.
Qed.

(** X20. When [onError] throws, polling is over: the exception leaves the
    [catch] block of [track], so the loop is finished although
    [isTracking] is still set, and whatever happens afterwards no request
    is issued and no callback is made. *)
Theorem throwing_onError_ends_polling (t : Tracker)
    (answer : FetchOutcome) (update : Callbacks.Outcome) (thrown : Thrown)
    (es : list Callbacks.LoopEvent) :
  phase t = AwaitingPosition ->
  (exists error, getPosition parseFloat answer = inl error)
  \/ update <> None ->
  let stepped :=
    Callbacks.step parseFloat t
      (Callbacks.Answered answer update (Some thrown)) in
  existsb isOnError (snd stepped) = true
  /\ phase (fst stepped) = Finished
  /\ isTracking (fst stepped) = isTracking t
  /\ Forall (fun a => isRequest a = false /\ isCallback a = false)
            (snd (Callbacks.run parseFloat (fst stepped) es)).
Proof.
  intros Hphase Hcalled stepped.
  assert (Hstepped : existsb isOnError (snd stepped) = true
                     /\ phase (fst stepped) = Finished
                     /\ isTracking (fst stepped) = isTracking t).
  { unfold stepped, Callbacks.step. rewrite Hphase.
    destruct (getPosition parseFloat answer) as [error|position].
    - repeat split.
    - destruct update as [u|].
      + repeat split.
      + destruct Hcalled as [[error Herror]|Hupdate];
          [discriminate Herror|congruence]. }
  destruct Hstepped as (Herror & Hdone & Hflag).
  repeat split; try assumption.
  apply run_finished, Hdone.
Qed.

Lemma step_accounting (t : Tracker) (e : Event) :
  List.length (filter isRequest (snd (step parseFloat t e)))
  + pendingCallbacks t
  = List.length (filter isCallback (snd (step parseFloat t e)))
    + pendingCallbacks (fst (step parseFloat t e)).
Proof.
  destruct t as [tracking ctl count ph].
  destruct e as [answer| |]; destruct ph; destruct ctl as [c|];
    destruct tracking;
    unfold step, loopTest, beginGetPosition, cancelRequest, abortController,
      pendingCallbacks;
    cbn [phase isTracking controller created];
    try destruct (getPosition parseFloat answer);
    reflexivity.
Qed.

Lemma run_accounting (es : list Event) :
  forall t : Tracker,
    List.length (filter isRequest (snd (run parseFloat t es)))
    + pendingCallbacks t
    = List.length (filter isCallback (snd (run parseFloat t es)))
      + pendingCallbacks (fst (run parseFloat t es)).
Proof.
  induction es as [|e es IH]; intros t.
  - simpl. lia.
  - simpl. pose proof (step_accounting t e) as Hstep.
    destruct (step parseFloat t e) as [t1 a1]. simpl in Hstep.
    specialize (IH t1). destruct (run parseFloat t1 es) as [t2 a2].
    simpl in *. rewrite !filter_app, !length_app. lia.
Qed.

Lemma step_quiet (t : Tracker) (e : Event) :
  Callbacks.step parseFloat t (Callbacks.quiet e) = step parseFloat t e.
Proof.
  destruct t as [tracking ctl count ph].
  destruct e as [answer| |]; destruct ph; reflexivity.
Qed.

(** With callbacks that return, the loop is the one of [ISSService]. *)
Lemma run_quiet (es : list Event) :
  forall t : Tracker,
    Callbacks.run parseFloat t (map Callbacks.quiet es)
    = run parseFloat t es.
Proof.
  induction es as [|e es IH]; intros t; [reflexivity|].
  cbn [map Callbacks.run run]. rewrite step_quiet.
  destruct (step parseFloat t e) as [t1 a1]. rewrite IH. reflexivity.
Qed.

Lemma step_accounting_throwing (t : Tracker) (e : Callbacks.LoopEvent) :
  let stepped := Callbacks.step parseFloat t e in
  List.length (filter isRequest (snd stepped)) + pendingCallbacks t
  <= List.length (filter isCallback (snd stepped))
     + pendingCallbacks (fst stepped)
  /\ List.length (filter isCallback (snd stepped))
     + 2 * pendingCallbacks (fst stepped)
     <= 2 * List.length (filter isRequest (snd stepped))
        + 2 * pendingCallbacks t.
Proof.
  destruct t as [tracking ctl count ph].
  destruct e as [answer update error| |]; destruct ph; destruct ctl as [c|];
    try destruct tracking;
    unfold Callbacks.step, Callbacks.report, loopTest, beginGetPosition,
      cancelRequest, abortController, pendingCallbacks;
    cbn [phase isTracking controller created];
    try destruct (getPosition parseFloat answer);
    try destruct update; try destruct error;
    cbn [fst snd phase filter isRequest isCallback List.length app];
    lia.
Qed.

Lemma run_accounting_throwing (es : list Callbacks.LoopEvent) :
  forall t : Tracker,
    let after := Callbacks.run parseFloat t es in
    List.length (filter isRequest (snd after)) + pendingCallbacks t
    <= List.length (filter isCallback (snd after))
       + pendingCallbacks (fst after)
    /\ List.length (filter isCallback (snd after))
       + 2 * pendingCallbacks (fst after)
       <= 2 * List.length (filter isRequest (snd after))
          + 2 * pendingCallbacks t.
Proof.
  induction es as [|e es IH]; intros t.
  - simpl. lia.
  - cbn [Callbacks.run]. cbv zeta.
    pose proof (step_accounting_throwing t e) as Hstep. cbv zeta in Hstep.
    destruct (Callbacks.step parseFloat t e) as [t1 a1].
    cbn [fst snd] in Hstep.
    specialize (IH t1). cbv zeta in IH.
    destruct (Callbacks.run parseFloat t1 es) as [t2 a2].
    cbn [fst snd] in *. rewrite !filter_app, !length_app. lia.
Qed.

(** X5. Requests never overlap, whatever the callbacks do: for every
    sequence of events after [startTracking], answers whose callbacks throw
    included, every request issued except the one still pending has been
    reported by a callback, and no request is reported by more than two
    callbacks; when the callbacks return, the requests issued are exactly
    the callbacks made plus the request still pending. *)
Theorem requests_never_overlap (service : option nat) (count : nat) :
  let started := startTracking (num := num) service count in
  (forall es : list Callbacks.LoopEvent,
      let after := Callbacks.run parseFloat (fst started) es in
      let requests :=
        List.length (filter isRequest (snd started ++ snd after)) in
      let callbacks := List.length (filter isCallback (snd after)) in
      requests <= callbacks + pendingCallbacks (fst after)
      /\ callbacks + 2 * pendingCallbacks (fst after) <= 2 * requests)
  /\ (forall es : list Event,
      let after :=
        Callbacks.run parseFloat (fst started) (map Callbacks.quiet es) in
      List.length (filter isRequest (snd started ++ snd after))
      = List.length (filter isCallback (snd after))
        + pendingCallbacks (fst after)).
Proof.
  intros started.
  assert (Hstart : List.length (filter isRequest (snd started)) = 1
                   /\ pendingCallbacks (fst started) = 1).
  { unfold started. destruct service; split; reflexivity. }
  destruct Hstart as [Hreq Hpending]. split.
  - intros es after requests callbacks.
    pose proof (run_accounting_throwing es (fst started)) as Hrun.
    cbv zeta in Hrun. fold after in Hrun.
    unfold requests, callbacks. rewrite filter_app, length_app. lia.
  - intros es after. unfold after. rewrite run_quiet.
    pose proof (run_accounting es (fst started)) as Hrun.
    rewrite filter_app, length_app. lia.
Qed.

(** X6. A cancelled loop ends: after the handle is invoked, the pending answer
    and the timer bring the loop to [Finished] with the controller dropped,
    and from there no event makes it act or change again. *)
Theorem cancelled_loop_ends (t : Tracker) (answer : FetchOutcome)
    (es : list Event) :
  let ended :=
    fst (run parseFloat t [Cancel; Settled answer; TimerFired]) in
  phase ended = Finished
  /\ isTracking ended = false
  /\ controller ended = None
  /\ run parseFloat ended es = (ended, []).
Proof.
  intros ended.
  assert (Hended : ended = mkTracker false None (created t) Finished).
  { unfold ended. destruct t as [tracking ctl count ph].
    destruct ph, ctl as [c|]; simpl;
      try destruct (getPosition parseFloat answer); reflexivity. }
  rewrite Hended. repeat split.
  induction es as [|e es IH]; [reflexivity|].
  simpl. destruct e; simpl; rewrite IH; reflexivity.
Qed.

End ServiceMore.

(** ** Country borders *)

Section CountryFacts.
Import Globe Countries.
Context {num : Type} `{JSNumber num} `{JSMath num}.
Variable setFromPoints : list (Vector3 num) -> BufferGeometry (num := num).
Variable geoContains : Feature num -> num -> num -> bool.

Lemma scanArray_Forall (array : list num) :
  scanArray array = true <-> Forall (fun a => isNaN a = false) array.
Proof.
  induction array as [|a rest IH]; simpl.
  - split; [constructor|reflexivity].
  - destruct (isNaN a) eqn:Ha.
    + split; [discriminate|]. intros Hall. inversion Hall. congruence.
    + rewrite IH. split.
      * intros Hrest. constructor; assumption.
      * intros Hall. inversion Hall. assumption.
Qed.

(** X7. [validateGeometry] accepts a geometry exactly when it has a position
    attribute and no entry of its array is NaN; an empty array is
    accepted. *)
Theorem validateGeometry_iff (geometry : BufferGeometry (num := num)) :
  validateGeometry geometry = true
  <-> exists array,
        geometry = Some array /\ Forall (fun a => isNaN a = false) array.
Proof.
  destruct geometry as [array|]; simpl.
  - rewrite scanArray_Forall. split.
    + intros Hall. exists array. split; [reflexivity|exact Hall].
    + intros (array' & Heq & Hall). injection Heq as <-. exact Hall.
  - split; [discriminate|]. intros (array & Heq & _). discriminate Heq.
Qed.

Lemma borderPoint_valid (coord : list num) (p : Vector3 num) :
  borderPoint coord = Some p -> invalidPosition p = false.
Proof.
  unfold borderPoint. destruct coord as [|lon [|lat rest]]; try discriminate.
  destruct (isNaN lon || isNaN lat); [discriminate|].
  cbv zeta.
  match goal with
  | |- (if ?c then _ else _) = _ -> _ => destruct c eqn:Hc
  end; [|discriminate].
  intros Heq. injection Heq as <-. unfold invalidPosition.
  cbn [THREE.x THREE.y THREE.z].
  apply andb_prop in Hc. destruct Hc as [Hc Hz].
  apply andb_prop in Hc. destruct Hc as [Hx Hy].
  apply negb_true_iff in Hx, Hy, Hz. rewrite Hx, Hy, Hz. reflexivity.
Qed.

Lemma ringPoints_valid (coords : list (list num)) :
  Forall (fun p => invalidPosition p = false) (ringPoints coords).
Proof.
  unfold ringPoints. induction coords as [|coord rest IH]; simpl.
  - constructor.
  - destruct (borderPoint coord) as [p|] eqn:Hp; simpl; [|exact IH].
    constructor; [exact (borderPoint_valid coord Hp)|exact IH].
Qed.

Lemma ringPoints_length (coords : list (list num)) :
  List.length (ringPoints coords) <= List.length coords.
Proof.
  unfold ringPoints. induction coords as [|coord rest IH]; simpl; [lia|].
  destruct (borderPoint coord); simpl; lia.
Qed.

Lemma ringLine_Some (coords : list (list num)) (line : Line num) :
  ringLine setFromPoints coords = Some line ->
  line = mkLine (ringPoints coords) plainStyle
  /\ 2 <= List.length coords
  /\ 2 <= List.length (ringPoints coords)
  /\ validateGeometry (setFromPoints (ringPoints coords)) = true.
Proof.
  unfold ringLine.
  destruct (Nat.ltb_spec (List.length coords) 2) as [|Hcoords];
    [discriminate|].
  destruct (Nat.ltb_spec (List.length (ringPoints coords)) 2) as [|Hpoints];
    [discriminate|].
  destruct (validateGeometry (setFromPoints (ringPoints coords))) eqn:Hvalid;
    [|discriminate].
  intros Heq. injection Heq as <-. repeat split; assumption.
Qed.

(** X8. Every line [createCountryBorders] adds to the group comes from a ring of
    a feature with at least two coordinates; it has at least two points,
    none with a NaN coordinate, the plain white material, and a geometry
    that passed [validateGeometry].  Rings that give fewer than two usable
    points add no line, so the group has at most as many lines as the
    features have rings. *)
Theorem border_lines_wellformed (features : list (Feature num)) :
  Forall (fun line =>
            2 <= List.length (linePoints line)
            /\ Forall (fun p => invalidPosition p = false) (linePoints line)
            /\ style line = plainStyle
            /\ validateGeometry (setFromPoints (linePoints line)) = true
            /\ exists feature coords,
                 In feature features
                 /\ In coords (coordinates feature)
                 /\ 2 <= List.length coords
                 /\ linePoints line = ringPoints coords)
         (createCountryBorders setFromPoints features)
  /\ List.length (createCountryBorders setFromPoints features)
     <= list_sum (map (fun feature => List.length (coordinates feature))
                      features).
Proof.
  split.
  - apply Forall_forall. intros line Hin.
    unfold createCountryBorders in Hin.
    apply in_flat_map in Hin. destruct Hin as (feature & Hfeature & Hin).
    apply in_flat_map in Hin. destruct Hin as (coords & Hcoords & Hin).
    destruct (ringLine setFromPoints coords) as [line'|] eqn:Hline;
      [|contradiction].
    destruct Hin as [<-|[]].
    destruct (ringLine_Some coords Hline) as (-> & Hlen & Hpoints & Hvalid).
    cbn [linePoints style]. repeat split; try assumption.
    + apply ringPoints_valid.
    + exists feature, coords. repeat split; assumption.
  - unfold createCountryBorders.
    induction features as [|feature rest IH]; simpl; [lia|].
    rewrite length_app.
    assert (Hrings : List.length
                       (flat_map (fun coords =>
                                    match ringLine setFromPoints coords with
                                    | Some line => [line]
                                    | None => []
                                    end)
                                 (coordinates feature))
                     <= List.length (coordinates feature)).
    { induction (coordinates feature) as [|coords rings IHr]; simpl; [lia|].
      rewrite length_app.
      destruct (ringLine setFromPoints coords); simpl; lia. }
    lia.
Qed.

Lemma highlightAt_next (k : nat) :
  forall lines : list (Line num),
    highlightAt k (map (restyle litStyle) (firstn k lines) ++ skipn k lines)
    = map (restyle litStyle) (firstn (S k) lines) ++ skipn (S k) lines.
Proof.
  induction k as [|k IH]; intros [|line rest]; try reflexivity.
  change (firstn (S k) (line :: rest)) with (line :: firstn k rest).
  change (firstn (S (S k)) (line :: rest)) with (line :: firstn (S k) rest).
  change (skipn (S k) (line :: rest)) with (skipn k rest).
  change (skipn (S (S k)) (line :: rest)) with (skipn (S k) rest).
  cbn [map app highlightAt]. rewrite IH. reflexivity.
Qed.

Lemma highlight_fold (k : nat) (lines : list (Line num)) :
  fold_left (fun ls index => highlightAt index ls) (seq 0 k) lines
  = map (restyle litStyle) (firstn k lines) ++ skipn k lines.
Proof.
  induction k as [|k IH].
  - reflexivity.
  - rewrite seq_S, fold_left_app, IH. simpl. apply highlightAt_next.
Qed.

(** X9. When a country contains the point and the borders exist, the lines
    that end up highlighted are the first [k] children of the group, [k]
    the number of rings of that country, and every other child is reset to
    the plain style: the choice of lines depends on how many rings the
    country has, not on which country it is.  The name shown is the
    country's, or "Unknown" when it is empty. *)
Theorem highlight_is_a_prefix (lat lon : num)
    (features : list (Feature num)) (st : Highlight num)
    (country : Feature num) (children : list (Line num)) :
  isNaN lat = false -> isNaN lon = false ->
  find (fun feature => geoContains feature lon lat) features = Some country ->
  countryLines st = Some children ->
  let k := List.length (coordinates country) in
  highlightCountry geoContains lat lon features st
  = mkHighlight
      (Some (map (restyle litStyle) (firstn k children)
             ++ map (restyle plainStyle) (skipn k children)))
      (if String.eqb (Countries.name country) "" then "Unknown"%string
       else Countries.name country).
Proof.
  intros Hlat Hlon Hfind Hlines k. unfold highlightCountry.
  rewrite Hlat, Hlon, Hfind, Hlines. cbn [orb]. f_equal. f_equal.
  fold k. rewrite highlight_fold, firstn_map, skipn_map, map_map.
  reflexivity.
Qed.

(** X10. [highlightCountry] leaves the highlight and the country name as they
    were when a coordinate is NaN, when no feature contains the point (over
    the ocean the last country stays on display), and when the borders are
    not there. *)
Theorem highlight_unchanged (lat lon : num)
    (features : list (Feature num)) (st : Highlight num) :
  isNaN lat = true \/ isNaN lon = true
  \/ find (fun feature => geoContains feature lon lat) features = None
  \/ countryLines st = None ->
  highlightCountry geoContains lat lon features st = st.
Proof.
  unfold highlightCountry.
  intros [Hlat|[Hlon|[Hfind|Hlines]]].
  - rewrite Hlat. reflexivity.
  - rewrite Hlon, orb_true_r. reflexivity.
  - rewrite Hfind. destruct (isNaN lat || isNaN lon); reflexivity.
  - rewrite Hlines. destruct (isNaN lat || isNaN lon); [reflexivity|].
    destruct (find _ features); reflexivity.
Qed.

End CountryFacts.

(** ** The geometry of the future arc and of the borders, in exact
    arithmetic *)

Section ArcGeometry.
Import Globe Countries.
Local Open Scope R_scope.

Lemma futurePoint_rotated (lastPoint normal : Vector3 R) (i : nat) :
  norm2 normal = 1 -> norm2 lastPoint <> 0 ->
  futurePoint lastPoint normal (THREE.length lastPoint) i
  = THREE.applyMatrix4 lastPoint
      (THREE.makeRotationAxis normal
         (IZR (Z.of_nat i) / IZR (Z.of_nat FUTURE_POINTS) * PI / 2)).
Proof.
  intros Hn Hl. unfold futurePoint. rewrite clone_eq.
  change (ofZ (Z.of_nat i) / ofZ (Z.of_nat FUTURE_POINTS)
          * Math_PI / ofZ 2)%js
    with (IZR (Z.of_nat i) / IZR (Z.of_nat FUTURE_POINTS) * PI / 2).
  set (rotated := THREE.applyMatrix4 lastPoint _).
  assert (Hnorm : norm2 rotated = norm2 lastPoint)
    by (apply norm2_rotation, Hn).
  assert (Hlen : THREE.length rotated = THREE.length lastPoint)
    by (rewrite !length_norm2, Hnorm; reflexivity).
  rewrite normalize_nonzero by (rewrite Hnorm; exact Hl).
  rewrite Hlen.
  pose proof (length_nonzero Hl) as Hne.
  destruct rotated as [a b c]. unfold THREE.multiplyScalar. simpl.
  f_equal; field; exact Hne.
Qed.

(** A point orthogonal to a unit axis, rotated about it. *)
Lemma rotation_dots (axis l v : Vector3 R) (angle : R) :
  norm2 axis = 1 -> dot axis l = 0 ->
  let rotated := THREE.applyMatrix4 l (THREE.makeRotationAxis axis angle) in
  dot axis rotated = 0
  /\ dot l rotated = norm2 l * Rtrigo_def.cos angle
  /\ dot rotated v
     = dot l v * Rtrigo_def.cos angle
       + dot (THREE.crossVectors axis l) v * Rtrigo_def.sin angle.
Proof.
  destruct axis as [a b c], l as [lx ly lz], v as [vx vy vz].
  unfold norm2, dot, THREE.applyMatrix4, THREE.makeRotationAxis,
    THREE.crossVectors.
  simpl. intros Haxis Hperp.
  set (s := Rtrigo_def.sin angle). set (k := Rtrigo_def.cos angle).
  replace (1 / (0 * lx + 0 * ly + 0 * lz + 1)) with 1 by (field; lra).
  repeat split; nsatz.
Qed.

Lemma nth_error_seq_Some (start len i n : nat) :
  nth_error (seq start len) i = Some n -> n = (start + i)%nat.
Proof.
  revert start i. induction len as [|len IH]; intros start i Hn.
  - destruct i; discriminate Hn.
  - destruct i as [|i]; simpl in Hn.
    + injection Hn as <-. lia.
    + apply IH in Hn. lia.
Qed.

(** X11. Where the future arc lies.  With a proper orbital plane, the point at
    index [i] of the arc is the last past point turned by
    [(i + 1) / 200] of a quarter turn about the plane's normal: it lies in
    the plane through the origin, the last point and the velocity, it makes
    that angle with the last point, and its component along the velocity
    shows that the arc leaves the last point on the side the velocity
    points to.  The final point is a quarter turn ahead: at a right angle
    to the last point. *)
Theorem future_arc_geometry (values : list (Vector3 R))
    (lastPoint secondLastPoint q : Vector3 R) (i : nat) :
  nth_error values (List.length values - 1) = Some lastPoint ->
  nth_error values (List.length values - 2) = Some secondLastPoint ->
  let velocity := THREE.subVectors lastPoint secondLastPoint in
  let normal := THREE.crossVectors lastPoint velocity in
  normal <> origin ->
  nth_error (futurePoints values) i = Some q ->
  let angle := IZR (Z.of_nat (S i)) / 200 * PI / 2 in
  dot normal q = 0
  /\ dot lastPoint q = norm2 lastPoint * Rtrigo_def.cos angle
  /\ dot q velocity
     = dot lastPoint velocity * Rtrigo_def.cos angle
       + THREE.length normal * Rtrigo_def.sin angle
  /\ (i = 199%nat -> dot lastPoint q = 0).
Proof.
  intros Hl Hs velocity normal Hproper Hq angle.
  assert (Hge : (2 <= List.length values)%nat).
  { destruct (Nat.le_gt_cases 2 (List.length values)) as [Hge|Hlt];
      [exact Hge|].
    rewrite futurePoints_short in Hq by exact Hlt.
    destruct i; discriminate Hq. }
  destruct (futurePoints_long values Hge) as (l & s & Hl' & Hs' & Heq).
  rewrite Hl in Hl'. rewrite Hs in Hs'.
  injection Hl' as <-. injection Hs' as <-.
  fold velocity in Heq. fold normal in Heq.
  rewrite Heq, nth_error_map in Hq.
  destruct (nth_error (seq 1 FUTURE_POINTS) i) as [n|] eqn:Hi;
    [|discriminate Hq].
  apply nth_error_seq_Some in Hi. simpl in Hi. subst n.
  cbn [option_map] in Hq. injection Hq as <-.
  assert (Hnormal : norm2 normal <> 0).
  { intros Hz. apply Hproper, norm2_origin, Hz. }
  assert (Hlast : norm2 lastPoint <> 0)
    by exact (cross_nonzero_last Hproper).
  rewrite futurePoint_rotated
    by (try apply norm2_normalize; assumption).
  change (IZR (Z.of_nat (S i)) / IZR (Z.of_nat FUTURE_POINTS) * PI / 2)
    with angle.
  pose proof (length_nonzero Hnormal) as Hlen.
  pose proof (length_sqr normal) as Hsqr.
  assert (Haxis : THREE.normalize normal
                  = THREE.multiplyScalar normal (1 / THREE.length normal))
    by (apply normalize_nonzero, Hnormal).
  assert (Hperp : dot (THREE.normalize normal) lastPoint = 0).
  { rewrite Haxis. unfold normal, velocity.
    destruct lastPoint as [lx ly lz], secondLastPoint as [sx sy sz].
    unfold dot, THREE.multiplyScalar, THREE.crossVectors, THREE.subVectors.
    simpl. ring. }
  destruct (rotation_dots velocity angle
              (norm2_normalize Hnormal) Hperp)
    as (Hin & Hself & Hvel).
  set (rotated := THREE.applyMatrix4 lastPoint _) in *.
  assert (Hplane : dot normal rotated = 0).
  { replace (dot normal rotated)
      with (THREE.length normal * dot (THREE.normalize normal) rotated).
    - rewrite Hin. ring.
    - rewrite Haxis. destruct normal as [a b c], rotated as [x y z].
      unfold dot, THREE.multiplyScalar. simpl. simpl in Hlen.
      field. exact Hlen. }
  assert (Hside : dot (THREE.crossVectors (THREE.normalize normal) lastPoint)
                      velocity
                  = THREE.length normal).
  { rewrite Haxis.
    transitivity (norm2 normal * (1 / THREE.length normal)).
    - unfold normal, velocity.
      destruct lastPoint as [lx ly lz], secondLastPoint as [sx sy sz].
      unfold dot, norm2, THREE.multiplyScalar, THREE.crossVectors,
        THREE.subVectors.
      simpl. ring.
    - rewrite <- Hsqr. field. exact Hlen. }
  rewrite Hside in Hvel.
  repeat split; try assumption.
  intros ->. rewrite Hself. unfold angle.
  replace (IZR (Z.of_nat 200) / 200 * PI / 2) with (PI / 2)
    by (simpl; field).
  rewrite cos_PI2. ring.
Qed.

Lemma borderRadius_R : (borderRadius : R) = 5.01.
Proof. unfold borderRadius, decimal. simpl. lra. Qed.

(** X12. A border point lies on the ray from the centre through the marker
    position of the same latitude and longitude, at distance 5.01 where
    the marker is at 5.2. *)
Theorem border_below_marker (lon lat alt vel : R) (rest : list R) :
  exists p : Vector3 R,
    borderPoint (lon :: lat :: rest) = Some p
    /\ THREE.length p = 5.01
    /\ THREE.multiplyScalar p Globe.radius
       = THREE.multiplyScalar (newPosition (mkISSPosition lat lon alt vel))
                              borderRadius.
Proof.
  eexists. split; [reflexivity|]. split.
  - rewrite length_norm2.
    replace 5.01 with (R_sqrt.sqrt (5.01 * 5.01))
      by (apply sqrt_square; lra).
    f_equal. unfold norm2. simpl.
    set (phi := (90 - lat) * (PI / 180)).
    set (theta := (lon + 180) * (PI / 180)).
    pose proof (sin2_cos2 phi) as Hphi.
    pose proof (sin2_cos2 theta) as Htheta.
    unfold Rsqr in Hphi, Htheta.
    set (sp := Rtrigo_def.sin phi) in *. set (cp := Rtrigo_def.cos phi) in *.
    set (st := Rtrigo_def.sin theta) in *.
    set (ct := Rtrigo_def.cos theta) in *.
    nsatz.
  - unfold THREE.multiplyScalar, newPosition. simpl. f_equal; ring.
Qed.

End ArcGeometry.

(** ** What the orbit lines show along a run *)

Section DrawnFacts.
Context {num : Type} `{JSNumber num} `{JSMath num}.
Import Globe.

Lemma validValues_values (h : Heap) (refs : list Ref)
    (vals : list (Vector3 num)) :
  map (nth_error h) refs = map Some vals ->
  Forall (fun p => accepted p = true) vals ->
  validValues h refs = vals.
Proof.
  unfold validValues. revert vals.
  induction refs as [|r refs IH]; intros [|p vals] Hmap Hall;
    try discriminate Hmap; [reflexivity|].
  cbn [map] in Hmap. injection Hmap as Hr Hrest.
  inversion Hall as [|p' vals' Hp Hvals]; subst.
  cbn [filter]. rewrite (validPoint_of_value h r Hr).
  unfold accepted in Hp. rewrite Hp. cbn [flat_map]. rewrite Hr.
  simpl. f_equal. apply IH; assumption.
Qed.

Lemma keptPoints_accepted (vs : list (Vector3 num)) :
  Forall (fun p => accepted p = true) (keptPoints vs).
Proof.
  unfold keptPoints. apply Forall_lastn, Forall_forall.
  intros p Hp. apply filter_In in Hp. tauto.
Qed.

Lemma tracks_validValues (st : Globe.State num) (vs : list (Vector3 num)) :
  tracks st vs -> validValues (heap st) (orbitPoints st) = keptPoints vs.
Proof.
  intros Hst. apply validValues_values.
  - exact (tracks_trailPoints Hst).
  - apply keptPoints_accepted.
Qed.

Lemma keptPoints_rejected (vs : list (Vector3 num)) (v : Vector3 num) :
  invalidPosition v = true -> keptPoints (vs ++ [v]) = keptPoints vs.
Proof.
  intros Hv. unfold keptPoints. rewrite filter_app. simpl.
  unfold accepted at 2. rewrite Hv. simpl. rewrite app_nil_r. reflexivity.
Qed.

Lemma keptPoints_accepted_last (vs : list (Vector3 num)) (v : Vector3 num) :
  invalidPosition v = false -> keptPoints (vs ++ [v]) <> [].
Proof.
  intros Hv Hnil. apply (f_equal (@List.length _)) in Hnil.
  unfold keptPoints in Hnil. rewrite lastn_length, filter_app in Hnil.
  cbn [filter] in Hnil. unfold accepted at 2 in Hnil. rewrite Hv in Hnil.
  cbn [negb] in Hnil. rewrite length_app in Hnil.
  cbn [List.length] in Hnil. unfold MAX_TRAIL_LENGTH in Hnil. lia.
Qed.

Lemma drawn_init (h : Heap) (ready : bool) (marker : option (Vector3 num)) :
  drawn (createOrbitLine h ready marker) [].
Proof. split; [apply tracks_init|split; reflexivity]. Qed.

Lemma drawn_feed (st : Globe.State num) (vs : list (Vector3 num))
    (v : Vector3 num) :
  drawn st vs -> drawn (feed st v) (vs ++ [v]).
Proof.
  intros (Hst & Hpast & Hfuture).
  pose proof (tracks_feed v Hst) as Hnext.
  split; [exact Hnext|].
  destruct (invalidPosition v) eqn:Hv.
  - rewrite feed_rejected by exact Hv. cbn [pastLine futureLine].
    unfold shownPast, shownFuture. rewrite keptPoints_rejected by exact Hv.
    split; assumption.
  - pose proof (tracks_validValues Hnext) as Hvalues.
    rewrite feed_accepted in Hvalues |- * by exact Hv.
    cbn [heap orbitPoints pastLine futureLine] in Hvalues |- *.
    rewrite Hvalues. unfold shownPast, shownFuture.
    pose proof (keptPoints_accepted_last vs v Hv) as Hne.
    destruct (keptPoints (vs ++ [v])); [congruence|split; reflexivity].
Qed.

Lemma drawn_feedAll (st : Globe.State num) (vs ws : list (Vector3 num)) :
  drawn st vs -> drawn (feedAll st ws) (vs ++ ws).
Proof.
  revert st vs. induction ws as [|w ws IH]; intros st vs Hst; simpl.
  - rewrite app_nil_r. exact Hst.
  - replace (vs ++ w :: ws) with ((vs ++ [w]) ++ ws)
      by (rewrite <- app_assoc; reflexivity).
    apply IH, drawn_feed, Hst.
Qed.

(** X13. Along every run of [updateOrbitLine] from the freshly created orbit
    line, the past line shows the newest [MAX_TRAIL_LENGTH] accepted
    points, every one of them (the filter of valid points drops nothing),
    and the future line the arc extrapolated from exactly those; before the
    first accepted point both lines still show the placeholder point
    [(0, 0, 0)] of [createOrbitLine]. *)
Theorem lines_show_the_buffer (h : Heap) (ready : bool)
    (marker : option (Vector3 num)) (vs : list (Vector3 num)) :
  let st := feedAll (createOrbitLine h ready marker) vs in
  pastLine st
  = match filter accepted vs with
    | [] => [origin]
    | _ => lastn MAX_TRAIL_LENGTH (filter accepted vs)
    end
  /\ futureLine st
     = match filter accepted vs with
       | [] => [origin]
       | _ => futurePoints (lastn MAX_TRAIL_LENGTH (filter accepted vs))
       end
  /\ map Some (validValues (heap st) (orbitPoints st)) = trailPoints st.
Proof.
  intros st.
  destruct (drawn_feedAll vs (drawn_init h ready marker))
    as (Hst & Hpast & Hfuture).
  change ([] ++ vs) with vs in Hst, Hpast, Hfuture.
  fold st in Hst, Hpast, Hfuture.
  rewrite Hpast, Hfuture, (tracks_validValues Hst), (tracks_trailPoints Hst).
  unfold shownPast, shownFuture, keptPoints.
  assert (Hkept : filter accepted vs <> [] ->
                  lastn MAX_TRAIL_LENGTH (filter accepted vs) <> []).
  { intros Hne Hnil. apply (f_equal (@List.length _)) in Hnil.
    rewrite lastn_length in Hnil.
    destruct (filter accepted vs); [congruence|].
    simpl in Hnil. unfold MAX_TRAIL_LENGTH in Hnil. lia. }
  destruct (filter accepted vs) as [|a rest] eqn:Hacc.
  - repeat split.
  - destruct (lastn MAX_TRAIL_LENGTH (a :: rest)) eqn:Hwin.
    + exfalso. apply Hkept; [discriminate|reflexivity].
    + repeat split.
Qed.

Lemma tracks_rejected (st : Globe.State num) (vs : list (Vector3 num))
    (v : Vector3 num) :
  invalidPosition v = true -> tracks st vs -> tracks st (vs ++ [v]).
Proof.
  intros Hv (refs & Hwin & Hlt & Hval). exists refs.
  rewrite filter_app. simpl. unfold accepted at 2. rewrite Hv. simpl.
  rewrite app_nil_r. repeat split; assumption.
Qed.

Lemma steered_updateISSPosition (st : Globe.State num)
    (vs : list (Vector3 num)) (m : Vector3 num)
    (position : ISSPosition num) :
  steered st vs m ->
  steered (updateISSPosition st position) (vs ++ [newPosition position]) m.
Proof.
  intros ((Hst & Hpast & Hfuture) & Hready & Hmarker).
  unfold updateISSPosition. rewrite Hready, Hmarker. cbv zeta.
  destruct (invalidPosition (newPosition position)) eqn:Hv.
  - repeat split.
    + apply tracks_rejected; assumption.
    + rewrite Hpast. unfold shownPast.
      rewrite keptPoints_rejected by exact Hv. reflexivity.
    + rewrite Hfuture. unfold shownFuture.
      rewrite keptPoints_rejected by exact Hv. reflexivity.
    + exact Hready.
    + rewrite Hmarker, filter_app. simpl. unfold accepted at 3.
      rewrite Hv. simpl. rewrite app_nil_r. reflexivity.
  - set (p := newPosition position) in *.
    set (st1 := mkState (heap st) true (Some p) (orbitPoints st)
                        (pastLine st) (futureLine st)).
    change (steered (feed st1 p) (vs ++ [p]) m).
    assert (Hdrawn : drawn st1 vs) by (repeat split; assumption).
    split; [apply drawn_feed, Hdrawn|].
    rewrite feed_accepted by exact Hv. cbn [sceneManager issMarker].
    split; [reflexivity|].
    rewrite filter_app. simpl. unfold accepted at 2. rewrite Hv. simpl.
    rewrite last_last. reflexivity.
Qed.

Lemma steered_run (positions : list (ISSPosition num)) :
  forall (st : Globe.State num) (vs : list (Vector3 num)) (m : Vector3 num),
    steered st vs m ->
    steered (fold_left updateISSPosition positions st)
            (vs ++ map newPosition positions) m.
Proof.
  induction positions as [|position rest IH]; intros st vs m Hst; simpl.
  - rewrite app_nil_r. exact Hst.
  - replace (vs ++ newPosition position :: map newPosition rest)
      with ((vs ++ [newPosition position]) ++ map newPosition rest)
      by (rewrite <- app_assoc; reflexivity).
    apply IH, steered_updateISSPosition, Hst.
Qed.

(** X14. [updateISSPosition] over a run of positions, in a ready scene: the
    trail and the two lines are those of handing the projected points to
    [updateOrbitLine] one by one, and the marker sits on the last projected
    point that was accepted (it stays where it was while there is none). *)
Theorem positions_feed_the_orbit_line (h : Heap) (m : Vector3 num)
    (positions : list (ISSPosition num)) :
  let st := fold_left updateISSPosition positions
                      (createOrbitLine h true (Some m)) in
  let projected := map newPosition positions in
  let fed := feedAll (createOrbitLine h true (Some m)) projected in
  trailPoints st = trailPoints fed
  /\ pastLine st = pastLine fed
  /\ futureLine st = futureLine fed
  /\ issMarker st = Some (last (filter accepted projected) m).
Proof.
  intros st projected fed.
  assert (Hinit : steered (createOrbitLine h true (Some m)) [] m).
  { split; [apply drawn_init|split; reflexivity]. }
  destruct (steered_run positions Hinit)
    as ((Hst & Hpast & Hfuture) & _ & Hmarker).
  destruct (drawn_feedAll projected (drawn_init h true (Some m)))
    as (Hfed & Hpast' & Hfuture').
  change ([] ++ map newPosition positions) with projected
    in Hst, Hpast, Hfuture, Hmarker.
  change ([] ++ projected) with projected in Hfed, Hpast', Hfuture'.
  fold st in Hst, Hpast, Hfuture, Hmarker.
  fold fed in Hfed, Hpast', Hfuture'.
  rewrite (tracks_trailPoints Hst), (tracks_trailPoints Hfed).
  rewrite Hpast, Hpast', Hfuture, Hfuture', Hmarker.
  repeat split.
Qed.

End DrawnFacts.

(** ** Binary64 runs, with the engines' sines and cosines *)

Section EngineRuns.
Import Globe.
Variables sin cos : float -> float.
Hypothesis engine : engineValues sin cos.

#[local] Hint Extern 0 (JSMath float) =>
  exact (FloatMath sin cos) : typeclass_instances.

Lemma float_neq (a b : float) : Prim2SF a <> Prim2SF b -> a <> b.
Proof. intros Hne Heq. apply Hne. rewrite Heq. reflexivity. Qed.

(** Latitude 0, longitude -180. *)
Lemma west_point (alt vel : float) :
  newPosition (mkISSPosition 0%float (-180)%float alt vel)
  = mkVector3 (-0x1.4cccccccccccdp+2)%float 0x1.6f1980f34113dp-52%float
              0%float.
Proof.
  destruct engine as (Hs0 & Hc0 & Hsq & Hcq & Hsh & Hch & Hst & Hct).
  unfold quarterPi, halfPi, twoPi in *.
  vm_compute. rewrite Hs0, Hc0, Hsh, Hch. reflexivity.
Qed.

(** Latitude 0, longitude 180. *)
Lemma east_point (alt vel : float) :
  newPosition (mkISSPosition 0%float 180%float alt vel)
  = mkVector3 (-0x1.4cccccccccccdp+2)%float 0x1.6f1980f34113dp-52%float
              (-0x1.6f1980f34113dp-50)%float.
Proof.
  destruct engine as (Hs0 & Hc0 & Hsq & Hcq & Hsh & Hch & Hst & Hct).
  unfold quarterPi, halfPi, twoPi in *.
  vm_compute. rewrite Hsh, Hch, Hst, Hct. reflexivity.
Qed.

(** Latitude 45, longitude -135. *)
Lemma northwest_point (alt vel : float) :
  newPosition (mkISSPosition 45%float (-135)%float alt vel)
  = mkVector3 (-0x1.4cccccccccccdp+1)%float 0x1.d6a67853f00f1p+1%float
              0x1.4ccccccccccccp+1%float.
Proof.
  destruct engine as (Hs0 & Hc0 & Hsq & Hcq & Hsh & Hch & Hst & Hct).
  unfold quarterPi, halfPi, twoPi in *.
  vm_compute. rewrite Hsq, Hcq. reflexivity.
Qed.

(** The last point of the arc drawn from these two. *)
Lemma arc_end_point :
  nth_error
    (futurePoints
       [mkVector3 (-0x1.4cccccccccccdp+2)%float 0x1.6f1980f34113dp-52%float
                  0%float;
        mkVector3 (-0x1.4cccccccccccdp+1)%float 0x1.d6a67853f00f1p+1%float
                  0x1.4ccccccccccccp+1%float])
    199
  = Some (mkVector3 0x1.203697d6c983bp+2%float 0x1.0fbae55a18328p+1%float
                    0x1.8048ca73b75a7p+0%float).
Proof.
  destruct engine as (Hs0 & Hc0 & Hsq & Hcq & Hsh & Hch & Hst & Hct).
  unfold quarterPi, halfPi, twoPi in *.
  destruct (@futurePoints_long float FloatNumber (FloatMath sin cos)
              [mkVector3 (-0x1.4cccccccccccdp+2)%float
                         0x1.6f1980f34113dp-52%float 0%float;
               mkVector3 (-0x1.4cccccccccccdp+1)%float
                         0x1.d6a67853f00f1p+1%float
                         0x1.4ccccccccccccp+1%float]
              (le_n 2))
    as (l & s & Hl & Hs & Heq).
  cbn [List.length Nat.sub nth_error] in Hl, Hs.
  injection Hl as <-. injection Hs as <-.
  rewrite Heq, nth_error_map.
  change (nth_error (seq 1 FUTURE_POINTS) 199) with (Some 200).
  cbn [option_map]. f_equal.
  vm_compute. rewrite Hsh, Hch. reflexivity.
Qed.

(** Two positions 45 degrees apart, reported one after the other to a
    ready scene: both are accepted, and the last point of the arc drawn
    from them is at distance 5.199999999999999 where the last past point is
    at distance 5.2. *)
Lemma rounded_arc_run :
  let st :=
    fold_left updateISSPosition
      [mkISSPosition 0%float (-180)%float 408%float
                     0x1.ea3d70a3d70a4p+2%float;
       mkISSPosition 45%float (-135)%float 408%float
                     0x1.ea3d70a3d70a4p+2%float]
      (createOrbitLine [] true (Some origin)) in
  let lastPoint :=
    mkVector3 (-0x1.4cccccccccccdp+1)%float 0x1.d6a67853f00f1p+1%float
              0x1.4ccccccccccccp+1%float in
  let endPoint :=
    mkVector3 0x1.203697d6c983bp+2%float 0x1.0fbae55a18328p+1%float
              0x1.8048ca73b75a7p+0%float in
  2 <= List.length (filter (validPoint (heap st)) (orbitPoints st))
  /\ nth_error (pastLine st) (List.length (pastLine st) - 1)
     = Some lastPoint
  /\ nth_error (futureLine st) 199 = Some endPoint
  /\ THREE.length lastPoint = 0x1.4cccccccccccdp+2%float
  /\ THREE.length endPoint = 0x1.4ccccccccccccp+2%float.
Proof.
  intros st lastPoint endPoint.
  assert (Hinit : steered (createOrbitLine [] true (Some origin)) []
                          (origin (num := float))).
  { split; [apply drawn_init|split; reflexivity]. }
  pose proof (steered_run
                [mkISSPosition 0%float (-180)%float 408%float
                               0x1.ea3d70a3d70a4p+2%float;
                 mkISSPosition 45%float (-135)%float 408%float
                               0x1.ea3d70a3d70a4p+2%float]
                Hinit) as Hrun.
  fold st in Hrun. cbn [map app] in Hrun.
  rewrite west_point, northwest_point in Hrun.
  destruct Hrun as ((Hst & Hpast & Hfuture) & _ & _).
  pose proof (tracks_validValues Hst) as Hvalues.
  pose proof (validValues_length (heap st) (orbitPoints st)) as Hlen.
  rewrite Hvalues in Hlen.
  change (shownPast _) with
    [mkVector3 (-0x1.4cccccccccccdp+2)%float 0x1.6f1980f34113dp-52%float
               0%float; lastPoint] in Hpast.
  change (shownFuture _) with
    (futurePoints
       [mkVector3 (-0x1.4cccccccccccdp+2)%float 0x1.6f1980f34113dp-52%float
                  0%float; lastPoint]) in Hfuture.
  split; [rewrite <- Hlen; apply le_n|].
  split; [rewrite Hpast; reflexivity|].
  split; [rewrite Hfuture; apply arc_end_point|].
  split; reflexivity.
Qed.

End EngineRuns.

(** The table holds the engines' values. *)
Lemma engine_table : engineValues engineSin engineCos.
Proof. repeat split. Qed.

(** C7, as the code has it.  Evaluated in exact arithmetic, latitude 0 with
    longitude -180 and latitude 0 with longitude 180 project to the same
    point.  On binary64 they agree in x and in y, but not in z: at
    longitude -180 the angle is 0 and z is 0, at longitude 180 the angle is
    [2 * Math.PI], whose sine is -2.4492935982947064e-16 rather than 0, and
    z is -1.2736326711132475e-15. *)
Theorem antimeridian_wraparound :
  (forall alt vel alt' vel' : R,
      Globe.newPosition (mkISSPosition 0%R (-180)%R alt vel)
      = Globe.newPosition (mkISSPosition 0%R 180%R alt' vel'))
  /\ (forall (sin cos : float -> float) (alt vel alt' vel' : float),
      engineValues sin cos ->
      let west :=
        @Globe.newPosition float FloatNumber (FloatMath sin cos)
          (mkISSPosition 0%float (-180)%float alt vel) in
      let east :=
        @Globe.newPosition float FloatNumber (FloatMath sin cos)
          (mkISSPosition 0%float 180%float alt' vel') in
      THREE.x west = THREE.x east
      /\ THREE.y west = THREE.y east
      /\ THREE.z west = 0%float
      /\ THREE.z east = (-0x1.6f1980f34113dp-50)%float).
Proof.
  split.
  - apply antimeridian_exact.
  - intros sin cos alt vel alt' vel' Hengine west east. unfold west, east.
    rewrite (west_point Hengine), (east_point Hengine).
    repeat split.
Qed.

(** C7, as the specification words it, fails on binary64: with the
    engines' values of [Math.sin] and [Math.cos] the two projections
    differ (in z). *)
Lemma antimeridian_differs_on_binary64 :
  engineValues engineSin engineCos
  /\ forall (sin cos : float -> float) (alt vel alt' vel' : float),
       engineValues sin cos ->
       @Globe.newPosition float FloatNumber (FloatMath sin cos)
         (mkISSPosition 0%float (-180)%float alt vel)
       <> @Globe.newPosition float FloatNumber (FloatMath sin cos)
            (mkISSPosition 0%float 180%float alt' vel').
Proof.
  split; [exact engine_table|].
  intros sin cos alt vel alt' vel' Hengine.
  rewrite (west_point Hengine), (east_point Hengine).
  intros Heq. apply (f_equal THREE.z) in Heq. cbn [THREE.z] in Heq.
  revert Heq. apply float_neq. vm_compute. discriminate.
Qed.

(** C2, as the specification words it, fails on binary64: after the
    positions (0, -180) and (45, -135), both accepted, the buffer holds two
    valid points, the last at distance 5.2, and the last point of the
    future arc is at distance 5.199999999999999. *)
Lemma rounding_breaks_equal_radius :
  engineValues engineSin engineCos
  /\ forall sin cos : float -> float,
       engineValues sin cos ->
       ~ Spec.constant_radius
           (fold_left
              (@Globe.updateISSPosition float FloatNumber
                 (FloatMath sin cos))
              [mkISSPosition 0%float (-180)%float 408%float
                             0x1.ea3d70a3d70a4p+2%float;
               mkISSPosition 45%float (-135)%float 408%float
                             0x1.ea3d70a3d70a4p+2%float]
              (Globe.createOrbitLine [] true (Some Globe.origin))).
Proof.
  split; [exact engine_table|].
  intros sin cos Hengine Hspec.
  destruct (rounded_arc_run Hengine)
    as (Hvalid & Hlast & Hend & Hlen & Hlen').
  destruct (Hspec _ Hvalid Hlast) as [_ Hall].
  rewrite Forall_forall in Hall.
  specialize (Hall _ (nth_error_In _ _ Hend)).
  rewrite Hlen, Hlen' in Hall.
  revert Hall. apply float_neq. vm_compute. discriminate.
Qed.



(** ** The callbacks of the component *)

Section WiringFacts.
Context {num : Type} `{JSNumber num} `{JSMath num}.
Variable parseFloat : string -> num.
Variable geoContains : Countries.Feature num -> num -> num -> bool.
Variable features : list (Countries.Feature num).
Import Globe ISSService Polling Countries Component.

Lemma last_cons_default (A : Type) (l : list A) (a d : A) :
  last (a :: l) d = last l a.
Proof.
  revert a d. induction l as [|b l IH]; intros a d; [reflexivity|].
  change (last (a :: b :: l) d) with (last (b :: l) d).
  rewrite !IH. reflexivity.
Qed.

Lemma dispatch_rounds (answers : list FetchOutcome) :
  forall (c : nat) (v : View num),
    fold_left (dispatch geoContains features) (rounds parseFloat c answers) v
    = fold_left (fun v answer =>
                   dispatch geoContains features v
                            (callbackOf parseFloat answer))
                answers v.
Proof.
  induction answers as [|answer rest IH]; intros c v; [reflexivity|].
  cbn [rounds fold_left dispatch]. apply IH.
Qed.

Lemma callbacks_by_part (answers : list FetchOutcome) :
  forall v0 : View num,
    let v := fold_left (fun v answer =>
                          dispatch geoContains features v
                                   (callbackOf parseFloat answer))
                       answers v0 in
    let positions := positionsOf parseFloat answers in
    scene v = fold_left updateISSPosition positions (scene v0)
    /\ highlight v
       = fold_left (fun hl position =>
                      highlightCountry geoContains
                        (Types.latitude position) (Types.longitude position)
                        features hl)
                   positions (highlight v0)
    /\ issPosition v = last (map Some positions) (issPosition v0)
    /\ error v
       = last (map (fun e => Some (errorMessage e))
                   (errorsOf parseFloat answers))
              (error v0).
Proof.
  induction answers as [|answer rest IH]; intros v0.
  - repeat split.
  - cbn [fold_left]. cbv zeta.
    destruct (IH (dispatch geoContains features v0
                           (callbackOf parseFloat answer)))
      as (Hscene & Hlight & Hpos & Herr).
    rewrite Hscene, Hlight, Hpos, Herr.
    unfold positionsOf, errorsOf, callbackOf. cbn [flat_map].
    destruct (getPosition parseFloat answer) as [e|position];
      cbn [dispatch onUpdate handleError scene highlight issPosition error
           app map fold_left];
      rewrite ?last_cons_default; repeat split.
Qed.

(** X15. From [startTracking] through any answers of the network to the view:
    the scene and the highlight see exactly the positions among the
    answers, in order, and nothing of the failures; the [issPosition]
    signal holds the last position; the error message is that of the last
    failure, and a later position does not clear it. *)
Theorem tracking_drives_the_view (count : nat)
    (answers : list FetchOutcome) (v0 : View num) :
  let started := startTracking (num := num) None count in
  let actions :=
    snd started ++ snd (run parseFloat (fst started) (polling answers)) in
  let v := fold_left (dispatch geoContains features) actions v0 in
  let positions := positionsOf parseFloat answers in
  scene v = fold_left updateISSPosition positions (scene v0)
  /\ highlight v
     = fold_left (fun hl position =>
                    highlightCountry geoContains
                      (Types.latitude position) (Types.longitude position)
                      features hl)
                 positions (highlight v0)
  /\ issPosition v = last (map Some positions) (issPosition v0)
  /\ error v
     = last (map (fun e => Some (errorMessage e))
                 (errorsOf parseFloat answers))
            (error v0).
Proof.
  intros started actions v positions. unfold v, actions, started.
  change (startTracking (num := num) None count)
    with (mkTracker true (Some count) (S count) AwaitingPosition,
          [Request (num := num) count]).
  cbn [fst snd]. rewrite run_rounds. cbn [snd app fold_left dispatch].
  rewrite dispatch_rounds. apply callbacks_by_part.
Qed.

Lemma onUpdate_after_cleanup (position : ISSPosition num) (v : View num) :
  sceneManager (scene v) = false ->
  countryLines (highlight v) = None ->
  scene (onUpdate geoContains features position v) = scene v
  /\ highlight (onUpdate geoContains features position v) = highlight v.
Proof.
  intros Hscene Hlines. cbn [onUpdate scene highlight]. split.
  - unfold updateISSPosition. rewrite Hscene. reflexivity.
  - unfold highlightCountry. rewrite Hlines.
    destruct (isNaN (Types.latitude position)
              || isNaN (Types.longitude position)); [reflexivity|].
    destruct (find _ features); reflexivity.
Qed.

(** X16. After [cleanupResources] nothing the tracking loop still delivers can
    touch the scene, the trail or the highlight: whatever actions arrive,
    the scene and the highlight stay as cleanup left them, with an empty
    trail and no border lines.  The country name on display is not reset by
    cleanup. *)
Theorem view_frozen_after_cleanup (v : View num)
    (actions : list (Action (num := num))) :
  let cleaned := cleanupResources v in
  let v' := fold_left (dispatch geoContains features) actions cleaned in
  scene v' = scene cleaned
  /\ highlight v' = highlight cleaned
  /\ trailPoints (scene v') = []
  /\ countryLines (highlight v') = None
  /\ currentCountry (highlight v') = currentCountry (highlight v).
Proof.
  intros cleaned v'.
  assert (Hkeep : scene v' = scene cleaned
                  /\ highlight v' = highlight cleaned).
  { unfold v'.
    assert (Hgen : forall w : View num,
               scene w = scene cleaned /\ highlight w = highlight cleaned ->
               scene (fold_left (dispatch geoContains features) actions w)
               = scene cleaned
               /\ highlight
                    (fold_left (dispatch geoContains features) actions w)
                  = highlight cleaned).
    { induction actions as [|a rest IH]; intros w Hw; [exact Hw|].
      cbn [fold_left]. apply IH. destruct Hw as [Hs Hh].
      destruct a as [c|c|position|e]; cbn [dispatch];
        try (split; assumption).
      destruct (onUpdate_after_cleanup position w) as [Hs' Hh'].
      - rewrite Hs. reflexivity.
      - rewrite Hh. reflexivity.
      - rewrite Hs', Hh'. split; assumption. }
    apply Hgen. split; reflexivity. }
  destruct Hkeep as [Hs Hh]. rewrite Hs, Hh. repeat split.
Qed.

End WiringFacts.

Section FloatWiring.
Import Globe Countries Component.
Variables sin cos : float -> float.
Hypothesis sin_nonfinite :
  forall a, PrimFloat.is_finite a = false -> PrimFloat.is_nan (sin a) = true.
Hypothesis cos_nonfinite :
  forall a, PrimFloat.is_finite a = false -> PrimFloat.is_nan (cos a) = true.
Variable geoContains : Feature float -> float -> float -> bool.
Variable features : list (Feature float).

#[local] Hint Extern 0 (JSMath float) =>
  exact (FloatMath sin cos) : typeclass_instances.

Lemma is_nan_not_finite (a : float) :
  PrimFloat.is_nan a = true -> PrimFloat.is_finite a = false.
Proof. intros Ha. apply is_nan_eq in Ha. subst a. reflexivity. Qed.

(** X17. A position whose latitude or longitude is NaN (what [parseFloat] makes
    of an unusable string) reaches the [issPosition] signal, and with it
    the info card, while the marker, the trail and the highlight stay as
    they were. *)
Theorem nan_position_reaches_only_the_signal (position : ISSPosition float)
    (v : View float) :
  PrimFloat.is_nan (Types.latitude position) = true
  \/ PrimFloat.is_nan (Types.longitude position) = true ->
  onUpdate geoContains features position v
  = mkView (scene v) (Some position) (highlight v) (error v).
Proof.
  intros Hnan. unfold onUpdate. f_equal.
  - unfold updateISSPosition.
    rewrite (@newPosition_nonfinite sin cos sin_nonfinite cos_nonfinite
               position).
    + destruct (sceneManager (scene v)), (issMarker (scene v)); reflexivity.
    + destruct Hnan as [Hlat|Hlon];
        [left|right]; apply is_nan_not_finite; assumption.
  - unfold highlightCountry.
    change (isNaN (Types.latitude position))
      with (PrimFloat.is_nan (Types.latitude position)).
    change (isNaN (Types.longitude position))
      with (PrimFloat.is_nan (Types.longitude position)).
    destruct Hnan as [-> | ->]; [reflexivity|].
    rewrite orb_true_r. reflexivity.
Qed.

End FloatWiring.

(** ** The loading manager *)

Section LoadingFacts.
Import Loading.

(** X18. Whatever is called on a manager, in any order: it never holds an
    error while it is loading. *)
Theorem loading_excludes_error (num : Type) (N : JSNumber num)
    (calls : list Call) :
  let m := fold_left call calls (create (num := num)) in
  match error m with
  | Some _ => isLoading m = false
  | None => True
  end.
Proof.
  cbv zeta.
  assert (Hgen : forall m : Manager num,
             match error m with
             | Some _ => isLoading m = false
             | None => True
             end ->
             match error (fold_left call calls m) with
             | Some _ => isLoading (fold_left call calls m) = false
             | None => True
             end).
  { induction calls as [|c rest IH]; intros m Hm; [exact Hm|].
    cbn [fold_left]. apply IH.
    destruct c; cbn [call error isLoading]; try exact I; try reflexivity.
    exact Hm. }
  apply Hgen. exact I.
Qed.

Local Open Scope R_scope.

(** X19. In exact arithmetic the progress stays between 0 and 100 as long as no
    report counts more items loaded than there are. *)
Theorem progress_is_a_percentage (calls : list Call) :
  Forall consistent calls ->
  0 <= progress (fold_left call calls (create (num := R))) <= 100.
Proof.
  assert (Hgen : forall m : Manager R,
             0 <= progress m <= 100 ->
             Forall consistent calls ->
             0 <= progress (fold_left call calls m) <= 100).
  { induction calls as [|c rest IH]; intros m Hm Hall; [exact Hm|].
    inversion Hall as [|c' rest' Hc Hrest]; subst.
    cbn [fold_left]. apply IH; [|exact Hrest].
    destruct c as [|url loaded total|url| |message|];
      cbn [call progress]; try exact Hm; try (simpl; lra).
    destruct (Nat.ltb_spec 0 total) as [Hpos|Hzero]; [|simpl; lra].
    simpl in Hc.
    change (0 <= IZR (Z.of_nat loaded) / IZR (Z.of_nat total) * 100 <= 100).
    assert (Ht : 0 < IZR (Z.of_nat total)) by (apply IZR_lt; lia).
    assert (Hl : 0 <= IZR (Z.of_nat loaded)) by (apply IZR_le; lia).
    assert (Hle : IZR (Z.of_nat loaded) <= IZR (Z.of_nat total))
      by (apply IZR_le; lia).
    assert (Hq : 0 <= IZR (Z.of_nat loaded) / IZR (Z.of_nat total) <= 1).
    { split.
      - apply Rle_mult_inv_pos; assumption.
      - apply (Rmult_le_reg_r (IZR (Z.of_nat total))); [exact Ht|].
        unfold Rdiv. rewrite Rmult_assoc, Rinv_l by lra. lra. }
    lra. }
  intros Hall. apply Hgen; [simpl; lra|exact Hall].
Qed.

End LoadingFacts.

(** ** Instances *)

(** A response that is not ok: status 404 is reported with the prefix of
    the [catch] block. *)
Lemma getPosition_errors_normalised_witness :
  ISSService.getPosition (tableParse sampleTable)
    (ISSService.Responded false 404 (inl ISSService.NotError))
  = inl (ISSService.mkError "Error"
           "Failed to fetch ISS position: HTTP error! status: 404")
  /\ ISSService.name
       (ISSService.mkError "Error"
          "Failed to fetch ISS position: HTTP error! status: 404")
     = "Error"%string
  /\ ISSService.errorMessage
       (ISSService.mkError "Error"
          "Failed to fetch ISS position: HTTP error! status: 404")
     = "Failed to fetch ISS position: HTTP error! status: 404"%string.
Proof.
  split; [reflexivity|].
  exact (conj
           (proj1 (getPosition_errors_normalised (tableParse sampleTable)
                     (ISSService.Responded false 404
                        (inl ISSService.NotError))
                     eq_refl))
           (proj2 (proj2
              (getPosition_errors_normalised (tableParse sampleTable)
                 (ISSService.Responded false 404 (inl ISSService.NotError))
                 eq_refl))
              404 (inl ISSService.NotError) eq_refl)).
Defined.

(** Over the second country, which has one ring: the first line of the
    group is lit, and that line was drawn from the first country. *)
Lemma highlight_is_a_prefix_witness :
  Countries.highlightCountry (byName "Chile") 0%R 0%R sampleFeatures
    sampleHighlight
  = Countries.mkHighlight
      (Some
         (map (Countries.restyle Countries.litStyle)
              (firstn 1
                 (Countries.createCountryBorders flatPoints sampleFeatures))
          ++ map (Countries.restyle Countries.plainStyle)
                 (skipn 1
                    (Countries.createCountryBorders flatPoints
                       sampleFeatures))))
      "Chile".
Proof.
  exact (highlight_is_a_prefix (byName "Chile") 0%R 0%R sampleFeatures
           sampleHighlight eq_refl eq_refl eq_refl eq_refl).
Defined.

(** Over the ocean nothing changes. *)
Lemma highlight_unchanged_witness :
  Countries.highlightCountry (byName "Atlantis") 0%R 0%R sampleFeatures
    sampleHighlight
  = sampleHighlight.
Proof.
  exact (highlight_unchanged (byName "Atlantis") 0%R 0%R sampleFeatures
           sampleHighlight (or_intror (or_intror (or_introl eq_refl)))).
Defined.

(** From the east point to the north point: the last point of the arc is
    at a right angle to the north point. *)
Lemma future_arc_geometry_witness :
  dot northR
      (Globe.futurePoint northR
         (THREE.normalize
            (THREE.crossVectors northR (THREE.subVectors northR eastR)))
         (THREE.length northR) 200)
  = 0%R.
Proof.
  exact (proj2 (proj2 (proj2
           (future_arc_geometry [eastR; northR] 199
              eq_refl eq_refl cross_east_north eq_refl)))
           eq_refl).
Defined.

(** A NaN latitude: only the signal changes. *)
Lemma nan_position_reaches_only_the_signal_witness :
  @Component.onUpdate float FloatNumber
     (FloatMath (nanOutsideFinite (fun a => a))
                (nanOutsideFinite (fun _ => 1%float)))
     (fun _ _ _ => false) []
     (mkISSPosition nan 0%float 408%float 0x1.ea3d70a3d70a4p+2%float)
     (Component.mkView (Globe.createOrbitLine [] true (Some Globe.origin))
        None (Countries.mkHighlight None "") None)
  = Component.mkView (Globe.createOrbitLine [] true (Some Globe.origin))
      (Some (mkISSPosition nan 0%float 408%float
               0x1.ea3d70a3d70a4p+2%float))
      (Countries.mkHighlight None "") None.
Proof.
  exact (nan_position_reaches_only_the_signal
           (nanOutsideFinite (fun a => a))
           (nanOutsideFinite (fun _ => 1%float))
           (nanOutsideFinite_nonfinite (fun a => a))
           (nanOutsideFinite_nonfinite (fun _ => 1%float))
           (fun _ _ _ => false) []
           (mkISSPosition nan 0%float 408%float 0x1.ea3d70a3d70a4p+2%float)
           (Component.mkView
              (Globe.createOrbitLine [] true (Some Globe.origin))
              None (Countries.mkHighlight None "") None)
           (or_introl eq_refl)).
Defined.

(** One of two textures loaded, then the load completes. *)
Lemma progress_is_a_percentage_witness :
  (0 <= Loading.progress
          (fold_left Loading.call
             [Loading.OnProgress "earth.jpg" 1 2; Loading.OnLoad]
             (Loading.create (num := R)))
   <= 100)%R.
Proof.
  apply (@progress_is_a_percentage
           [Loading.OnProgress "earth.jpg" 1 2; Loading.OnLoad]).
  repeat constructor.
Defined.

(** With the table as [Math.sin] and [Math.cos]: the two projections agree
    in x and y, and z is 0 on one side and about -1.27e-15 on the other. *)
Lemma antimeridian_wraparound_witness :
  THREE.x (@Globe.newPosition float FloatNumber
             (FloatMath engineSin engineCos)
             (mkISSPosition 0%float (-180)%float 408%float
                            0x1.ea3d70a3d70a4p+2%float))
  = THREE.x (@Globe.newPosition float FloatNumber
               (FloatMath engineSin engineCos)
               (mkISSPosition 0%float 180%float 408%float
                              0x1.ea3d70a3d70a4p+2%float))
  /\ THREE.y (@Globe.newPosition float FloatNumber
                (FloatMath engineSin engineCos)
                (mkISSPosition 0%float (-180)%float 408%float
                               0x1.ea3d70a3d70a4p+2%float))
     = THREE.y (@Globe.newPosition float FloatNumber
                  (FloatMath engineSin engineCos)
                  (mkISSPosition 0%float 180%float 408%float
                                 0x1.ea3d70a3d70a4p+2%float))
  /\ THREE.z (@Globe.newPosition float FloatNumber
                (FloatMath engineSin engineCos)
                (mkISSPosition 0%float (-180)%float 408%float
                               0x1.ea3d70a3d70a4p+2%float))
     = 0%float
  /\ THREE.z (@Globe.newPosition float FloatNumber
                (FloatMath engineSin engineCos)
                (mkISSPosition 0%float 180%float 408%float
                               0x1.ea3d70a3d70a4p+2%float))
     = (-0x1.6f1980f34113dp-50)%float.
Proof.
  exact (proj2 antimeridian_wraparound engineSin engineCos
           408%float 0x1.ea3d70a3d70a4p+2%float
           408%float 0x1.ea3d70a3d70a4p+2%float engine_table).
Defined.

(** The first request fails and [onError] throws: the loop is finished
    and the timer starts nothing. *)
Lemma throwing_onError_ends_polling_witness :
  ISSService.phase
    (fst (Callbacks.step (tableParse sampleTable)
            (fst (ISSService.startTracking (num := float) None 0))
            (Callbacks.Answered
               (ISSService.Rejected ISSService.NotError) None
               (Some ISSService.NotError))))
  = ISSService.Finished
  /\ snd (Callbacks.run (tableParse sampleTable)
            (fst (Callbacks.step (tableParse sampleTable)
                    (fst (ISSService.startTracking (num := float) None 0))
                    (Callbacks.Answered
                       (ISSService.Rejected ISSService.NotError) None
                       (Some ISSService.NotError))))
            [Callbacks.Timer])
     = [].
Proof.
  split.
  - exact (proj1 (proj2
             (@throwing_onError_ends_polling float FloatNumber
                (tableParse sampleTable)
                (fst (ISSService.startTracking (num := float) None 0))
                (ISSService.Rejected ISSService.NotError) None
                ISSService.NotError [Callbacks.Timer] eq_refl
                (or_introl (ex_intro _ _ eq_refl))))).
  - reflexivity.
Defined.
